(** * GeoFlow Tracker: a shallow embedding of [src/app.js]

    The class [GeoFlowTracker] is embedded method by method.  The object's
    mutable fields ([this.state], [this.watchId], [this.trackingInterval])
    and the mutable parts of the browser the script talks to
    ([localStorage], the geolocation provider's subscriptions, the requests
    handed to [fetch], the status lines written by [setStatus]) form one
    [World] that every method threads through a state-and-exception monad.
    The [async] methods are cut at each [await]: the first part issues the
    request and parks a [Task]; an event of the page's event loop later
    resumes the task with the settlement of the promise, on whatever the
    world has become in the meantime.

    What the browser decides is a parameter ([Env]): which elements the page
    has, whether [navigator.geolocation] and [navigator.permissions] exist,
    the clock, and the builtins [String.prototype.trim], [parseInt],
    [JSON.parse] and the coercion behind [>].  Modelling conventions:
    - strings are Rocq strings; message texts are kept symbolic where the
      script interpolates numbers or errors into them;
    - the doubles of a position are carried by their 64-bit patterns, since
      the script only copies them; the session counter, the one number the
      script computes with, is an integer or NaN;
    - writes to DOM properties are rendering and leave the world alone, but
      dereferencing an element that the page lacks throws, as in the script;
    - [localStorage.setItem] is taken to succeed (no quota error);
    - [config.trackingInterval] is never read by the script and is left out,
      as is [state.lastError], which is never written. *)

From Stdlib Require Import Ascii ZArith Lia.
From stdpp Require Import base option list strings gmap pretty.

Open Scope Z_scope.

(** ** Values *)

(** The session counter: [0], [parseInt] of a stored string, and [++].  It
    is a double that holds an integer, NaN or an infinity.  [Int z] is the
    double of value [z]; both zeros are [Int 0], since the script only
    increments and prints the counter, and neither tells them apart. *)
Inductive Number :=
| NaN
| Infinity (negative : bool)
| Int (z : Z).

(** The double nearest to the integer [x], ties going to the even mantissa.
    Up to [2 ^ 53] in magnitude every integer is a double.  Beyond, [x] lies
    in a binade whose doubles are [2 ^ k] apart: the 53-bit mantissa [q] is
    rounded on the remainder [r], and a mantissa carried beyond the largest
    finite double gives an infinity. *)
Definition round_double (x : Z) : Number :=
  let a := Z.abs x in
  if a <=? 2 ^ 53 then Int x
  else
    let k := Z.log2 a - 52 in
    let q := a / 2 ^ k in
    let r := a mod 2 ^ k in
    let half := 2 ^ (k - 1) in
    let mantissa :=
      if r <? half then q
      else if half <? r then q + 1
      else if Z.even q then q else q + 1 in
    let rounded := mantissa * 2 ^ k in
    if 2 ^ 1024 <=? rounded then Infinity (x <? 0)
    else Int (Z.sgn x * rounded).

(** [n++] on a number: the double nearest to [n + 1].  NaN stays NaN and an
    infinity stays itself. *)
Definition increment (n : Number) : Number :=
  match n with
  | NaN => NaN
  | Infinity negative => Infinity negative
  | Int z => round_double (z + 1)
  end.

(** A decimal numeral of Number::toString: [length_] digits [digits_],
    standing for [digits_ * 10 ^ (exponent_ - length_)]. *)
Record Decimal := {
  digits_ : Z;
  exponent_ : Z;
  length_ : Z
}.

Definition value_of (d : Decimal) : Z :=
  digits_ d * 10 ^ (exponent_ d - length_ d).

(** [d] has exactly [length_ d] digits and the double nearest to its value
    is [x]. *)
Definition denotes (x : Z) (d : Decimal) : bool :=
  (10 ^ (length_ d - 1) <=? digits_ d) && (digits_ d <? 10 ^ length_ d)
  && match round_double (value_of d) with
     | Int y => y =? x
     | _ => false
     end.

(** The numerals of [k] digits and exponent [n] that denote [x]: they are
    among the two that enclose [x]. *)
Definition candidates (x k n : Z) : list Decimal :=
  if n <? k then []
  else
    let s := x / 10 ^ (n - k) in
    filter (fun d => Is_true (denotes x d))
      [ {| digits_ := s; exponent_ := n; length_ := k |};
        {| digits_ := s + 1; exponent_ := n; length_ := k |} ].

(** Of two numerals the one nearer to [x]; at equal distance the even one. *)
Definition closer (x : Z) (c d : Decimal) : Decimal :=
  let far_c := Z.abs (value_of c - x) in
  let far_d := Z.abs (value_of d - x) in
  if far_c <? far_d then c
  else if far_d <? far_c then d
  else if Z.even (digits_ c) then c else d.

(** The numeral of fewest digits, from [k] digits on, that denotes the
    positive double [x] of [n] decimal digits. *)
Fixpoint shortest (fuel : nat) (x n k : Z) : option Decimal :=
  match fuel with
  | O => None
  | S fuel' =>
      match candidates x k (n - 1) ++ candidates x k n
            ++ candidates x k (n + 1) with
      | c :: rest => Some (foldl (closer x) c rest)
      | [] => shortest fuel' x n (k + 1)
      end
  end.

Fixpoint zeros (n : nat) : string :=
  match n with
  | O => ""
  | S m => String "0" (zeros m)
  end.

(** The text of a numeral: its digits padded with zeros up to 21 places,
    the exponent form beyond. *)
Definition format (d : Decimal) : string :=
  if exponent_ d <=? 21 then
    pretty (digits_ d) +:+ zeros (Z.to_nat (exponent_ d - length_ d))
  else
    match pretty (digits_ d) with
    | String first "" => String first ("e+" +:+ pretty (exponent_ d - 1))
    | String first rest =>
        String first ("." +:+ rest +:+ "e+" +:+ pretty (exponent_ d - 1))
    | "" => ""
    end.

(** ToString of a number, as [localStorage.setItem] applies it.  Up to
    [2 ^ 53] in magnitude the text is the decimal numeral of the integer;
    beyond, it is the shortest numeral that reads back as the same double
    (17 digits always suffice). *)
Definition Number_toString (n : Number) : string :=
  match n with
  | NaN => "NaN"
  | Infinity false => "Infinity"
  | Infinity true => "-Infinity"
  | Int z =>
      if Z.abs z <=? 2 ^ 53 then pretty z
      else
        let x := Z.abs z in
        let text :=
          match shortest 17 x (Z.of_nat (String.length (pretty x))) 1 with
          | Some d => format d
          | None => pretty x
          end in
        if z <? 0 then "-" +:+ text else text
  end.

#[global] Arguments round_double : simpl never.
#[global] Arguments increment : simpl never.
#[global] Arguments Number_toString : simpl never.

(** A double of the provider, by its bit pattern. *)
Definition double := Z.

#[local] Set Warnings "-register-all".

(** The value of a parsed JSON text.  A number keeps its lexeme; the
    members of an object are its own properties, each key once. *)
Inductive Json :=
| JNull
| JBool (b : bool)
| JNumber (lexeme : string)
| JString (s : string)
| JArray (items : list Json)
| JObject (members : list (string * Json)).

(** [position.coords] of the Geolocation API: the first three are always
    numbers, the others may be null. *)
Record Coordinates := {
  c_latitude : double;
  c_longitude : double;
  c_accuracy : double;
  c_altitude : option double;
  c_heading : option double;
  c_speed : option double
}.

(** [locationData], the object literal of [onLocationSuccess]. *)
Record LocationData := {
  latitude : double;
  longitude : double;
  accuracy : double;
  altitude : option double;
  heading : option double;
  speed : option double;
  timestamp : string
}.

(** What can be thrown, or be the reason of a rejected promise. *)
Inductive Exn :=
| TypeError_element (id : string)      (* property of a missing element *)
| TypeError_property (name : string)   (* property of null or undefined *)
| SyntaxError                          (* JSON.parse *)
| HttpError (status : Z) (statusText : string)
                                       (* new Error(`HTTP ${status}: ${statusText}`) *)
| Rejection (reason : string).         (* fetch, response.json(), permissions.query *)

Inductive Severity := info | success | warning | error | system.

(** Message texts.  [Text] is a literal of the script; the other
    constructors are its template literals with their arguments. *)
Inductive Message :=
| Text (s : string)
| CheckingAvailability (userId : string)
| AlreadyExists (userId : string) (records : nat)
| AlreadyInUse (userId : string)
| VerifiedAndSet (userId : string)
| CouldNotVerify (e : Exn)
| UsedLocally (userId : string)
| SetOffline (userId : string)
| LocationFix (lat lon acc : double)
| SendingTo (url : string)
| SentSuccessfully (id : option Json)
| BackendError (e : Exn)
| BackendUrl (url : string)
| PermissionState (st : string)
| PermissionCheckFailed (e : Exn).

(** An entry of [state.debugLogs]: [{ message, type, timestamp }]. *)
Record LogEntry := {
  log_message : Message;
  log_type : Severity;
  log_timestamp : string
}.

(** A value of the object literal sent as a request body. *)
Inductive Value :=
| VNull
| VNumber (d : double)
| VString (s : string).

Inductive Method := GET | POST.

(** A call of [fetch]: the body is the object given to [JSON.stringify],
    as its list of fields in source order. *)
Record Request := {
  req_method : Method;
  req_url : string;
  req_headers : list (string * string);
  req_body : option (list (string * Value))
}.

(** The part of a [Response] the script reads. *)
Record Response := {
  status : Z;
  statusText : string
}.

(** [response.ok]: the status is in the range 200-299. *)
Definition ok (r : Response) : bool :=
  (200 <=? status r) && (status r <=? 299).

Inductive FetchOutcome :=
| Rejected (reason : string)
| Responded (r : Response).

Inductive BodyOutcome :=
| BodyRejected (reason : string)
| BodyJson (data : Json).

(** A suspended [async] method, waiting at one of its [await]s. *)
Inductive Task :=
| HistoryFetch (userId : string)   (* submitUserId, at [await fetch(historyUrl)] *)
| HistoryBody (userId : string)    (* submitUserId, at [await response.json()] *)
| PushFetch (d : LocationData)     (* sendToBackend, at [await fetch(backendUrl)] *)
| PushBody (d : LocationData)      (* sendToBackend, at [await response.json()] *)
| PermissionQuery.                 (* init, inside checkPermissions, at [await query] *)

(** ** The browser *)

Record Env := {
  document : string -> bool;          (* getElementById(id) is not null *)
  geolocation : bool;                 (* navigator.geolocation is there *)
  permissions : bool;                 (* navigator.permissions is there *)
  clock : nat -> Z;                   (* the instant of the n-th [new Date()] *)
  toISOString : Z -> string;
  toLocaleTimeString : Z -> string;
  trim : string -> string;            (* String.prototype.trim *)
  parseInt : string -> Number;
  JSON_parse : string -> option Json; (* None: SyntaxError *)
  gt_zero : Json -> bool              (* [v > 0] for a JSON value [v] *)
}.

(** ** The tracker and its world *)

(** [this.state]. *)
Record State := {
  isTracking : bool;
  isInitialized : bool;
  userId : option string;
  sessionCount : Number;
  locations : list LocationData;
  debugLogs : list LogEntry;
  lastLocation : option LocationData;
  userIdSet : bool
}.

Record World := {
  state : State;
  watchId : option nat;               (* this.watchId *)
  trackingInterval : option nat;      (* this.trackingInterval *)
  localStorage : gmap string string;
  watches : list nat;                 (* live watchPosition subscriptions *)
  nextWatch : nat;                    (* the handle watchPosition returns next *)
  requests : list Request;            (* calls of fetch, oldest first *)
  statusLog : list (Message * Severity); (* calls of setStatus, oldest first *)
  ticks : nat;                        (* clock readings so far *)
  pending : list Task                 (* suspended async methods *)
}.

(** The fields as the constructor sets them. *)
Definition initial_state : State := {|
  isTracking := false;
  isInitialized := false;
  userId := None;
  sessionCount := Int 0;
  locations := [];
  debugLogs := [];
  lastLocation := None;
  userIdSet := false
|}.

Definition fresh (storage : gmap string string) : World := {|
  state := initial_state;
  watchId := None;
  trackingInterval := None;
  localStorage := storage;
  watches := [];
  nextWatch := 0;
  requests := [];
  statusLog := [];
  ticks := 0;
  pending := []
|}.

(** Field updates. *)
Definition set_isTracking (b : bool) (s : State) : State :=
  {| isTracking := b; isInitialized := isInitialized s; userId := userId s;
     sessionCount := sessionCount s; locations := locations s;
     debugLogs := debugLogs s; lastLocation := lastLocation s;
     userIdSet := userIdSet s |}.

Definition set_isInitialized (b : bool) (s : State) : State :=
  {| isTracking := isTracking s; isInitialized := b; userId := userId s;
     sessionCount := sessionCount s; locations := locations s;
     debugLogs := debugLogs s; lastLocation := lastLocation s;
     userIdSet := userIdSet s |}.

Definition set_userId (u : option string) (s : State) : State :=
  {| isTracking := isTracking s; isInitialized := isInitialized s; userId := u;
     sessionCount := sessionCount s; locations := locations s;
     debugLogs := debugLogs s; lastLocation := lastLocation s;
     userIdSet := userIdSet s |}.

Definition set_sessionCount (n : Number) (s : State) : State :=
  {| isTracking := isTracking s; isInitialized := isInitialized s;
     userId := userId s; sessionCount := n; locations := locations s;
     debugLogs := debugLogs s; lastLocation := lastLocation s;
     userIdSet := userIdSet s |}.

Definition set_locations (l : list LocationData) (s : State) : State :=
  {| isTracking := isTracking s; isInitialized := isInitialized s;
     userId := userId s; sessionCount := sessionCount s; locations := l;
     debugLogs := debugLogs s; lastLocation := lastLocation s;
     userIdSet := userIdSet s |}.

Definition set_debugLogs (l : list LogEntry) (s : State) : State :=
  {| isTracking := isTracking s; isInitialized := isInitialized s;
     userId := userId s; sessionCount := sessionCount s;
     locations := locations s; debugLogs := l;
     lastLocation := lastLocation s; userIdSet := userIdSet s |}.

Definition set_lastLocation (d : option LocationData) (s : State) : State :=
  {| isTracking := isTracking s; isInitialized := isInitialized s;
     userId := userId s; sessionCount := sessionCount s;
     locations := locations s; debugLogs := debugLogs s; lastLocation := d;
     userIdSet := userIdSet s |}.

Definition set_userIdSet (b : bool) (s : State) : State :=
  {| isTracking := isTracking s; isInitialized := isInitialized s;
     userId := userId s; sessionCount := sessionCount s;
     locations := locations s; debugLogs := debugLogs s;
     lastLocation := lastLocation s; userIdSet := b |}.

Definition with_state (f : State -> State) (w : World) : World :=
  {| state := f (state w); watchId := watchId w;
     trackingInterval := trackingInterval w; localStorage := localStorage w;
     watches := watches w; nextWatch := nextWatch w; requests := requests w;
     statusLog := statusLog w; ticks := ticks w; pending := pending w |}.

Definition set_watchId (h : option nat) (w : World) : World :=
  {| state := state w; watchId := h;
     trackingInterval := trackingInterval w; localStorage := localStorage w;
     watches := watches w; nextWatch := nextWatch w; requests := requests w;
     statusLog := statusLog w; ticks := ticks w; pending := pending w |}.

Definition set_trackingInterval (h : option nat) (w : World) : World :=
  {| state := state w; watchId := watchId w; trackingInterval := h;
     localStorage := localStorage w; watches := watches w;
     nextWatch := nextWatch w; requests := requests w;
     statusLog := statusLog w; ticks := ticks w; pending := pending w |}.

Definition set_localStorage (m : gmap string string) (w : World) : World :=
  {| state := state w; watchId := watchId w;
     trackingInterval := trackingInterval w; localStorage := m;
     watches := watches w; nextWatch := nextWatch w; requests := requests w;
     statusLog := statusLog w; ticks := ticks w; pending := pending w |}.

Definition set_watches (l : list nat) (n : nat) (w : World) : World :=
  {| state := state w; watchId := watchId w;
     trackingInterval := trackingInterval w; localStorage := localStorage w;
     watches := l; nextWatch := n; requests := requests w;
     statusLog := statusLog w; ticks := ticks w; pending := pending w |}.

Definition set_requests (l : list Request) (w : World) : World :=
  {| state := state w; watchId := watchId w;
     trackingInterval := trackingInterval w; localStorage := localStorage w;
     watches := watches w; nextWatch := nextWatch w; requests := l;
     statusLog := statusLog w; ticks := ticks w; pending := pending w |}.

Definition set_statusLog (l : list (Message * Severity)) (w : World) : World :=
  {| state := state w; watchId := watchId w;
     trackingInterval := trackingInterval w; localStorage := localStorage w;
     watches := watches w; nextWatch := nextWatch w; requests := requests w;
     statusLog := l; ticks := ticks w; pending := pending w |}.

Definition set_ticks (n : nat) (w : World) : World :=
  {| state := state w; watchId := watchId w;
     trackingInterval := trackingInterval w; localStorage := localStorage w;
     watches := watches w; nextWatch := nextWatch w; requests := requests w;
     statusLog := statusLog w; ticks := n; pending := pending w |}.

Definition set_pending (l : list Task) (w : World) : World :=
  {| state := state w; watchId := watchId w;
     trackingInterval := trackingInterval w; localStorage := localStorage w;
     watches := watches w; nextWatch := nextWatch w; requests := requests w;
     statusLog := statusLog w; ticks := ticks w; pending := l |}.

(** ** Statements: state and exceptions *)

(** How a statement list completes: normally with a value, or abruptly. *)
Inductive Completion (A : Type) :=
| Normal (a : A)
| Throw (e : Exn).
Arguments Normal {A} a.
Arguments Throw {A} e.

Definition M (A : Type) : Type := World -> Completion A * World.

Definition ret {A} (a : A) : M A := fun w => (Normal a, w).

Definition bind {A B} (m : M A) (k : A -> M B) : M B := fun w =>
  match m w with
  | (Normal a, w') => k a w'
  | (Throw e, w') => (Throw e, w')
  end.

Declare Scope js_scope.
Delimit Scope js_scope with js.
Bind Scope js_scope with M.
Notation "x ← y ; z" := (bind y (fun x => z))
  (at level 20, y at level 100, z at level 200, only parsing) : js_scope.
Notation "x ;; z" := (bind x (fun _ => z))
  (at level 100, z at level 200, only parsing, right associativity) : js_scope.
Open Scope js_scope.

Definition throw {A} (e : Exn) : M A := fun w => (Throw e, w).

(** [try { body } catch (error) { handler }] *)
Definition try_catch {A} (body : M A) (handler : Exn -> M A) : M A := fun w =>
  match body w with
  | (Normal a, w') => (Normal a, w')
  | (Throw e, w') => handler e w'
  end.

Definition update (f : World -> World) : M unit := fun w => (Normal tt, f w).

Definition read {A} (f : World -> A) : M A := fun w => (Normal (f w), w).

(** The world a call leaves behind, however it completes: an exception
    that escapes an event handler or an async method is reported by the
    browser and changes nothing more. *)
Definition exec {A} (m : M A) (w : World) : World := snd (m w).

(** ** The methods of [GeoFlowTracker] *)

(** [config.backendUrl] and [config.maxDebugLogs]. *)
Definition backendUrl : string :=
  "https://k04bfg24-8080.asse.devtunnels.ms/api/v1/tracking/push".

Definition maxDebugLogs : nat := 50.

(** [`${this.config.backendUrl.replace('/push', '')}/history/${userId}`]:
    the only occurrence of [/push] in [backendUrl] is its suffix. *)
Definition historyUrl (userId : string) : string :=
  "https://k04bfg24-8080.asse.devtunnels.ms/api/v1/tracking" +:+ "/history/" +:+ userId.

(** The keys of [localStorage] the script uses. *)
Definition current_user_id : string := "current_user_id".

Definition session_count_ (userId : string) : string := "session_count_" +:+ userId.

Definition tracking_data_ (userId : string) : string := "tracking_data_" +:+ userId.

(** [`${this.state.userId}`] inside a key: null prints as [null]. *)
Definition userId_text (u : option string) : string :=
  match u with
  | Some s => s
  | None => "null"
  end.

(** A character of the class [[a-zA-Z0-9_-]]. *)
Definition id_char (c : ascii) : bool :=
  let n := nat_of_ascii c in
  ((97 <=? n) && (n <=? 122))%nat
  || ((65 <=? n) && (n <=? 90))%nat
  || ((48 <=? n) && (n <=? 57))%nat
  || (n =? 95)%nat
  || (n =? 45)%nat.

Fixpoint all_id_chars (s : string) : bool :=
  match s with
  | EmptyString => true
  | String c rest => id_char c && all_id_chars rest
  end.

(** [/^[a-zA-Z0-9_-]+$/.test(s)]: one character or more, all of the class. *)
Definition test_format (s : string) : bool :=
  match s with
  | EmptyString => false
  | _ => all_id_chars s
  end.

(** The condition of line 209: the candidate is refused. *)
Definition invalid_format (userId : string) : bool :=
  negb (test_format userId)
  || (String.length userId <? 3)%nat
  || (50 <? String.length userId)%nat.

(** [errorMessages[error.code] || errorMessages.default] *)
Definition errorMessages (code : Z) : Message :=
  if code =? 1 then Text "🔒 Permission denied - Enable location access"
  else if code =? 2 then Text "📡 Position unavailable - Check GPS signal"
  else if code =? 3 then Text "⏱️ Location request timeout"
  else Text "❌ Unknown geolocation error".

(** [payload], the object literal of [sendToBackend]. *)
Definition payload_of (user : option string) (d : LocationData)
  : list (string * Value) :=
  [ ("user_id", match user with Some u => VString u | None => VNull end);
    ("latitude", VNumber (latitude d));
    ("longitude", VNumber (longitude d));
    ("accuracy", VNumber (accuracy d));
    ("timestamp", VString (timestamp d)) ].

(** The own property [name] of a parsed object. *)
Fixpoint member (name : string) (members : list (string * Json)) : option Json :=
  match members with
  | [] => None
  | (k, v) :: rest => if String.eqb k name then Some v else member name rest
  end.

(** [value || fallback] on what [getItem] returns: null and the empty
    string are falsy. *)
Definition or_else (stored : option string) (fallback : string) : string :=
  match stored with
  | None => fallback
  | Some EmptyString => fallback
  | Some s => s
  end.

(** [this.state.debugLogs.push(e)] followed by the [shift()] of line 556. *)
Definition push_bounded (logs : list LogEntry) (e : LogEntry) : list LogEntry :=
  let pushed := logs ++ [e] in
  if (maxDebugLogs <? length pushed)%nat then tail pushed else pushed.

Section Methods.

Variable env : Env.

(** [new Date()]: one more reading of the clock. *)
Definition new_Date : M Z := fun w =>
  (Normal (clock env (ticks w)), set_ticks (S (ticks w)) w).

(** [document.getElementById(id).prop = v]: throws when the element is
    missing. *)
Definition element (id : string) : M unit := fun w =>
  if document env id then (Normal tt, w) else (Throw (TypeError_element id), w).

Definition getItem (key : string) : M (option string) :=
  read (fun w => localStorage w !! key).

Definition setItem (key value : string) : M unit :=
  update (fun w => set_localStorage (<[key := value]> (localStorage w)) w).

(** [fetch(url, options)]: the request leaves; the promise is awaited by
    the task the caller parks. *)
Definition fetch (r : Request) : M unit :=
  update (fun w => set_requests (requests w ++ [r]) w).

Definition suspend (t : Task) : M unit :=
  update (fun w => set_pending (pending w ++ [t]) w).

(** [navigator.geolocation.watchPosition(...)] *)
Definition watchPosition : M nat := fun w =>
  (Normal (nextWatch w),
   set_watches (watches w ++ [nextWatch w]) (S (nextWatch w)) w).

(** [navigator.geolocation.clearWatch(h)] *)
Definition clearWatch (h : nat) : M unit := fun w =>
  if geolocation env
  then (Normal tt,
        set_watches (filter (fun h' => h' ≠ h) (watches w)) (nextWatch w) w)
  else (Throw (TypeError_property "clearWatch"), w).

(** [debug(message, type)] *)
Definition debug (message : Message) (type : Severity) : M unit :=
  now ← new_Date;
  let timestamp := toLocaleTimeString env now in
  update (with_state (fun s =>
    set_debugLogs
      (push_bounded (debugLogs s)
         {| log_message := message; log_type := type;
            log_timestamp := timestamp |}) s)).

(** [setStatus(message, type)]: the two elements are tested before use. *)
Definition setStatus (message : Message) (type : Severity) : M unit :=
  update (fun w => set_statusLog (statusLog w ++ [(message, type)]) w).

(** [showValidationError(message)] *)
Definition showValidationError (message : Message) : M unit :=
  setStatus message error;;
  debug message error.

(** [showUserIdModal()] *)
Definition showUserIdModal : M unit :=
  debug (Text "User ID modal shown") info.

(** [hideUserIdModal()]: only a style write, behind a test. *)
Definition hideUserIdModal : M unit := ret tt.

(** [updateDeviceInfo()] *)
Definition updateDeviceInfo : M unit :=
  element "userID";;
  element "deviceInfo";;
  element "sessionCount".

(** [updateSessionCount()] *)
Definition updateSessionCount : M unit :=
  element "sessionCount".

(** [updateLocationDisplay(data)] *)
Definition updateLocationDisplay (data : LocationData) : M unit :=
  element "currentLat";;
  element "currentLon";;
  element "currentAccuracy";;
  element "accuracyStatus";;
  element "currentTime";;
  element "lastUpdateTime".

(** [addLocationLog(data)] *)
Definition addLocationLog (data : LocationData) : M unit :=
  update (with_state (fun s => set_locations (locations s ++ [data]) s)).

(** [getUserId()] *)
Definition getUserId : M (option string) :=
  savedUserId ← getItem current_user_id;
  ret (match savedUserId with
        | Some "" => None
        | other => other
        end).

(** [validateUserIdInput(value)]: every effect is a write to the two
    elements it has tested. *)
Definition validateUserIdInput (value : string) : M unit := ret tt.

(** [updatePermissionStatus(state)] *)
Definition updatePermissionStatus (st : string) : M unit :=
  if document env "permissionStatus"
  then debug (PermissionState st) info
  else ret tt.

(** [data.id] on a parsed body: null has no properties; only an object
    can have an own [id]. *)
Definition property_id (data : Json) : M (option Json) :=
  match data with
  | JNull => throw (TypeError_property "id")
  | JObject members => ret (member "id" members)
  | _ => ret None
  end.

(** [localData.length > 0] on a parsed value: an array and a string have a
    length; on an object it is whatever its member [length] compares to;
    elsewhere it is undefined, and [undefined > 0] is false. *)
Definition length_gt_zero (localData : Json) : M bool :=
  match localData with
  | JNull => throw (TypeError_property "length")
  | JArray items => ret (0 <? length items)%nat
  | JString s => ret (negb (String.eqb s ""))
  | JObject members =>
      ret (match member "length" members with
            | Some v => gt_zero env v
            | None => false
            end)
  | JBool _ | JNumber _ => ret false
  end.

(** [startTracking()] *)
Definition startTracking : M unit :=
  set ← read (fun w => userIdSet (state w));
  if negb set then
    debug (Text "User ID not set. Please set User ID first.") error;;
    setStatus (Text "❌ Please set User ID first") error;;
    showUserIdModal
  else
    tracking ← read (fun w => isTracking (state w));
    if tracking then
      debug (Text "Tracking already active") warning
    else
      setStatus (Text "🔄 Starting...") info;;
      update (with_state (set_isTracking true));;
      update (with_state (fun s => set_sessionCount (increment (sessionCount s)) s));;
      element "startBtn";;
      element "stopBtn";;
      (if geolocation env then
         h ← watchPosition;
         update (set_watchId (Some h));;
         debug (Text "Using watchPosition for continuous tracking") info
       else ret tt);;
      debug (Text "Tracking started (Watch active)") success;;
      setStatus (Text "🟢 Tracking active") success;;
      user ← read (fun w => userId (state w));
      count ← read (fun w => sessionCount (state w));
      setItem (session_count_ (userId_text user)) (Number_toString count);;
      updateSessionCount.

(** [stopTracking()] *)
Definition stopTracking : M unit :=
  tracking ← read (fun w => isTracking (state w));
  if negb tracking then
    debug (Text "Tracking not active") warning
  else
    handle ← read watchId;
    match handle with
    | Some h =>
        clearWatch h;;
        update (set_watchId None);;
        debug (Text "Cleared watchPosition") info
    | None => ret tt
    end;;
    timer ← read trackingInterval;
    match timer with
    | Some (S _) => update (set_trackingInterval None)
    | _ => ret tt
    end;;
    update (with_state (set_isTracking false));;
    element "startBtn";;
    element "stopBtn";;
    debug (Text "Tracking stopped") info;;
    setStatus (Text "⏸️ Tracking stopped") info.

(** [getLocation()]: the callbacks of [getCurrentPosition] arrive as
    events. *)
Definition getLocation : M unit :=
  if negb (geolocation env) then
    debug (Text "Geolocation API not available") error
  else
    debug (Text "Requesting location...") info.

(** The [catch] block of [sendToBackend]. *)
Definition sendToBackend_catch (locationData : LocationData) (e : Exn) : M unit :=
  debug (BackendError e) warning;;
  debug (BackendUrl backendUrl) warning;;
  addLocationLog locationData.

(** [sendToBackend(locationData)], up to [await fetch(...)]. *)
Definition sendToBackend (locationData : LocationData) : M unit :=
  user ← read (fun w => userId (state w));
  let payload := payload_of user locationData in
  try_catch
    (debug (SendingTo backendUrl) info;;
     fetch {| req_method := POST; req_url := backendUrl;
              req_headers := [("Content-Type", "application/json");
                              ("Accept", "application/json")];
              req_body := Some payload |};;
     suspend (PushFetch locationData))
    (sendToBackend_catch locationData).

(** [sendToBackend], from the settlement of [fetch] to
    [await response.json()]. *)
Definition sendToBackend_response (locationData : LocationData)
    (o : FetchOutcome) : M unit :=
  try_catch
    match o with
    | Rejected reason => throw (Rejection reason)
    | Responded response =>
        if negb (ok response) then
          throw (HttpError (status response) (statusText response))
        else
          suspend (PushBody locationData)
    end
    (sendToBackend_catch locationData).

(** [sendToBackend], from the settlement of [response.json()] on. *)
Definition sendToBackend_body (locationData : LocationData)
    (o : BodyOutcome) : M unit :=
  try_catch
    match o with
    | BodyRejected reason => throw (Rejection reason)
    | BodyJson data =>
        id ← property_id data;
        debug (SentSuccessfully id) success;;
        addLocationLog locationData
    end
    (sendToBackend_catch locationData).

(** [onLocationSuccess(position)] *)
Definition onLocationSuccess (coords : Coordinates) : M unit :=
  now ← new_Date;
  let locationData :=
    {| latitude := c_latitude coords; longitude := c_longitude coords;
       accuracy := c_accuracy coords; altitude := c_altitude coords;
       heading := c_heading coords; speed := c_speed coords;
       timestamp := toISOString env now |} in
  update (with_state (set_lastLocation (Some locationData)));;
  debug (LocationFix (c_latitude coords) (c_longitude coords) (c_accuracy coords))
    success;;
  updateLocationDisplay locationData;;
  sendToBackend locationData.

(** [onLocationError(error)], on [error.code]. *)
Definition onLocationError (code : Z) : M unit :=
  let message := errorMessages code in
  debug message error;;
  setStatus message error;;
  if code =? 1 then stopTracking else ret tt.

(** Lines 239-251 of [submitUserId]: "User ID is available". *)
Definition submitUserId_available (userId : string) : M unit :=
  update (with_state (set_userId (Some userId)));;
  update (with_state (set_userIdSet true));;
  stored ← getItem (session_count_ userId);
  update (with_state (set_sessionCount (parseInt env (or_else stored "0"))));;
  setItem current_user_id userId;;
  debug (VerifiedAndSet userId) success;;
  setStatus (Text "✓ Ready to track") success;;
  updateDeviceInfo;;
  hideUserIdModal;;
  update (with_state (set_isInitialized true)).

(** The [catch] block of [submitUserId]. *)
Definition submitUserId_catch (userId : string) (e : Exn) : M unit :=
  debug (CouldNotVerify e) warning;;
  stored ← getItem (tracking_data_ userId);
  localData ← match JSON_parse env (or_else stored "[]") with
              | Some v => ret v
              | None => throw SyntaxError
              end;
  used ← length_gt_zero localData;
  if used then
    showValidationError (UsedLocally userId)
  else
    update (with_state (set_userId (Some userId)));;
    update (with_state (set_userIdSet true));;
    setItem current_user_id userId;;
    updateDeviceInfo;;
    hideUserIdModal;;
    update (with_state (set_isInitialized true));;
    setStatus (Text "⚠️ Offline mode - Ready to track") warning;;
    debug (SetOffline userId) info.

(** [document.getElementById('userIdInput')?.value.trim()], where [value]
    is the text of the input element: undefined without the element, and
    undefined is as falsy as the empty string. *)
Definition input_value (value : string) : string :=
  if document env "userIdInput" then trim env value else "".

(** [submitUserId()], up to [await fetch(historyUrl)]. *)
Definition submitUserId (value : string) : M unit :=
  let userId := input_value value in
  if String.eqb userId "" then
    showValidationError (Text "Please enter a User ID")
  else if invalid_format userId then
    showValidationError (Text "Invalid User ID format")
  else
    debug (CheckingAvailability userId) info;;
    setStatus (Text "🔄 Checking User ID...") info;;
    try_catch
      (fetch {| req_method := GET; req_url := historyUrl userId;
                req_headers := [("Accept", "application/json")];
                req_body := None |};;
       suspend (HistoryFetch userId))
      (submitUserId_catch userId).

(** [submitUserId], from the settlement of [fetch] on. *)
Definition submitUserId_response (userId : string) (o : FetchOutcome) : M unit :=
  try_catch
    match o with
    | Rejected reason => throw (Rejection reason)
    | Responded response =>
        if ok response then suspend (HistoryBody userId)
        else submitUserId_available userId
    end
    (submitUserId_catch userId).

(** [submitUserId], from the settlement of [response.json()] on. *)
Definition submitUserId_body (userId : string) (o : BodyOutcome) : M unit :=
  try_catch
    match o with
    | BodyRejected reason => throw (Rejection reason)
    | BodyJson (JArray (record :: others)) =>
        showValidationError (AlreadyExists userId (length (record :: others)));;
        debug (AlreadyInUse userId) warning
    | BodyJson _ => submitUserId_available userId
    end
    (submitUserId_catch userId).

End Methods.

(** ** The page: construction and the event loop *)

Inductive PermissionOutcome :=
| PermissionStatus (st : string)    (* resolved, with [permission.state] *)
| QueryRejected (reason : string).

(** How a promise an [await] waits on settles. *)
Inductive Settlement :=
| FetchSettled (o : FetchOutcome)
| BodySettled (o : BodyOutcome)
| QuerySettled (o : PermissionOutcome).

(** What the event loop can run: a method called by a listener or by the
    page's own scripts, a callback of the location provider, or the
    continuation of an [await] ([Resume i s]: the [i]-th pending task's
    promise settles as [s]). *)
Inductive Event :=
| StartTracking
| StopTracking
| SubmitUserId (value : string)
| ValidateUserIdInput (value : string)
| GetLocation
| GetUserId
| LocationSuccess (coords : Coordinates)
| LocationError (code : Z)
| PermissionChange (st : string)
| Resume (i : nat) (s : Settlement).

Section Page.

Variable env : Env.

(** [checkPermissions()], from the settlement of [permissions.query] on. *)
Definition checkPermissions_settled (o : PermissionOutcome) : M unit :=
  match o with
  | PermissionStatus st => updatePermissionStatus env st
  | QueryRejected reason => debug env (PermissionCheckFailed (Rejection reason)) warning
  end.

(** [init()], up to the [await] inside [checkPermissions()].
    [setupEventListeners()] only registers listeners; without the
    permissions API [checkPermissions()] returns at once and [init]
    goes on to the modal. *)
Definition init : M unit :=
  debug env (Text "App started") system;;
  updateDeviceInfo env;;
  if negb (geolocation env) then
    setStatus (Text "❌ Geolocation not supported") error;;
    debug env (Text "Geolocation API not available") error
  else if negb (permissions env) then
    debug env (Text "Permissions API not available") warning;;
    showUserIdModal env
  else
    suspend PermissionQuery.

(** [new GeoFlowTracker()] on a page whose [localStorage] is [storage]. *)
Definition construct (storage : gmap string string) : World :=
  exec init (fresh storage).

(** The continuation of a task, when its promise settles. *)
Definition resume (t : Task) (s : Settlement) : option (M unit) :=
  match t, s with
  | HistoryFetch userId, FetchSettled o => Some (submitUserId_response env userId o)
  | HistoryBody userId, BodySettled o => Some (submitUserId_body env userId o)
  | PushFetch d, FetchSettled o => Some (sendToBackend_response env d o)
  | PushBody d, BodySettled o => Some (sendToBackend_body env d o)
  | PermissionQuery, QuerySettled o =>
      Some (checkPermissions_settled o;; showUserIdModal env)
  | _, _ => None
  end.

Definition step (w : World) (ev : Event) : World :=
  match ev with
  | StartTracking => exec (startTracking env) w
  | StopTracking => exec (stopTracking env) w
  | SubmitUserId value => exec (submitUserId env value) w
  | ValidateUserIdInput value => exec (validateUserIdInput value) w
  | GetLocation => exec (getLocation env) w
  | GetUserId => exec getUserId w
  | LocationSuccess coords => exec (onLocationSuccess env coords) w
  | LocationError code => exec (onLocationError env code) w
  | PermissionChange st => exec (updatePermissionStatus env st) w
  | Resume i s =>
      match pending w !! i with
      | Some t =>
          match resume t s with
          | Some continuation =>
              exec continuation (set_pending (delete i (pending w)) w)
          | None => w
          end
      | None => w
      end
  end.

Definition run (w : World) (events : list Event) : World :=
  foldl step w events.

End Page.

(** ** A concrete browser

    An instance of [Env] on which the methods can be run: every element the
    script names is on the page, the clock counts its readings, and the
    builtins are given on the inputs the examples below use them on
    ([trim] and [parseInt] on ASCII text, [JSON.parse] on arrays of
    unsigned integer literals written without blanks). *)
Module Browser.

Definition blank (c : ascii) : bool :=
  let n := nat_of_ascii c in
  ((9 <=? n) && (n <=? 13))%nat || (n =? 32)%nat.

Fixpoint trim_start (s : string) : string :=
  match s with
  | String c rest => if blank c then trim_start rest else s
  | EmptyString => EmptyString
  end.

Fixpoint trim_end (s : string) : string :=
  match s with
  | String c rest =>
      match trim_end rest with
      | EmptyString => if blank c then EmptyString else String c EmptyString
      | kept => String c kept
      end
  | EmptyString => EmptyString
  end.

Definition trim_blanks (s : string) : string := trim_end (trim_start s).

Definition digit (c : ascii) : option Z :=
  let n := nat_of_ascii c in
  if ((48 <=? n) && (n <=? 57))%nat then Some (Z.of_nat n - 48) else None.

(** The value of the longest prefix of decimal digits, if there is one. *)
Fixpoint digits (s : string) (acc : option Z) : option Z :=
  match s with
  | String c rest =>
      match digit c with
      | Some d => digits rest (Some (10 * default 0 acc + d))
      | None => acc
      end
  | EmptyString => acc
  end.

Definition parse_int (s : string) : Number :=
  let unsigned (t : string) := digits t None in
  match trim_start s with
  | String "-" rest =>
      match unsigned rest with Some n => round_double (- n) | None => NaN end
  | String "+" rest =>
      match unsigned rest with Some n => round_double n | None => NaN end
  | t => match unsigned t with Some n => round_double n | None => NaN end
  end.

(** The items of an array text, read after its opening bracket: unsigned
    integer literals separated by commas, up to the closing bracket. *)
Fixpoint items (s : string) (lexeme : string) (acc : list Json)
  : option (list Json) :=
  match s with
  | String c rest =>
      if bool_decide (is_Some (digit c)) then
        items rest (lexeme +:+ String c EmptyString) acc
      else if Ascii.eqb c "," then
        if String.eqb lexeme "" then None
        else items rest "" (acc ++ [JNumber lexeme])
      else if Ascii.eqb c "]" then
        if String.eqb rest "" then
          if String.eqb lexeme "" then None else Some (acc ++ [JNumber lexeme])
        else None
      else None
  | EmptyString => None
  end.

Definition parse_json (s : string) : option Json :=
  match s with
  | String "[" (String "]" EmptyString) => Some (JArray [])
  | String "[" rest => JArray <$> items rest "" []
  | _ => None
  end.

Definition positive_value (v : Json) : bool :=
  match v with
  | JBool b => b
  | JNumber lexeme =>
      match parse_int lexeme with
      | Int n => 0 <? n
      | Infinity negative => negb negative
      | NaN => false
      end
  | _ => false
  end.

Definition env : Env := {|
  document := fun _ => true;
  geolocation := true;
  permissions := true;
  clock := Z.of_nat;
  toISOString := pretty;
  toLocaleTimeString := pretty;
  trim := trim_blanks;
  parseInt := parse_int;
  JSON_parse := parse_json;
  gt_zero := positive_value
|}.

End Browser.

(** ** Vocabulary of the properties *)

(** A run of [debug] calls, one after the other. *)
Fixpoint debug_calls (env : Env) (calls : list (Message * Severity)) : M unit :=
  match calls with
  | [] => ret tt
  | (message, type) :: rest => debug env message type;; debug_calls env rest
  end.

(** The entries those calls push when the clock has been read [t] times. *)
Fixpoint entries_of (env : Env) (t : nat) (calls : list (Message * Severity))
  : list LogEntry :=
  match calls with
  | [] => []
  | (message, type) :: rest =>
      {| log_message := message; log_type := type;
         log_timestamp := toLocaleTimeString env (clock env t) |}
      :: entries_of env (S t) rest
  end.

(** What the second of two [stopTracking()] calls in a row pushes. *)
Definition not_active_entry (env : Env) (w : World) : LogEntry :=
  {| log_message := Text "Tracking not active"; log_type := warning;
     log_timestamp := toLocaleTimeString env (clock env (ticks w)) |}.

(** The fields of the request body, in source order. *)
Definition payload_fields : list string :=
  ["user_id"; "latitude"; "longitude"; "accuracy"; "timestamp"].

(** The sample [onLocationSuccess] builds from [coords] at instant [now]. *)
Definition sample_of (env : Env) (coords : Coordinates) (now : Z) : LocationData :=
  {| latitude := c_latitude coords; longitude := c_longitude coords;
     accuracy := c_accuracy coords; altitude := c_altitude coords;
     heading := c_heading coords; speed := c_speed coords;
     timestamp := toISOString env now |}.

(** The characters of a string. *)
Fixpoint chars (s : string) : list ascii :=
  match s with
  | EmptyString => []
  | String c rest => c :: chars rest
  end.

(** A parsed body that makes [submitUserId] refuse: a non-empty array. *)
Definition has_records (data : Json) : bool :=
  match data with
  | JArray (_ :: _) => true
  | _ => false
  end.

(** [m] keeps [P]: from a world with [P], however [m] completes. *)
Definition preserves {A} (P : World → Prop) (m : M A) : Prop :=
  ∀ w, P w → P (snd (m w)).

(** The stored item [tracking_data_{id}] is [v] (or absent). *)
Definition tracking_data_is (id : string) (v : option string) (w : World) : Prop :=
  localStorage w !! tracking_data_ id = v.

(** The debug log is within its bound. *)
Definition log_bounded (w : World) : Prop :=
  (length (debugLogs (state w)) ≤ maxDebugLogs)%nat.

(** The sample log holds [l]. *)
Definition locations_are (l : list LocationData) (w : World) : Prop :=
  locations (state w) = l.

(** The subscriptions the provider holds are the one whose handle the
    tracker keeps, if it keeps one; it keeps none when not tracking, and
    only a provider that exists gave one. *)
Definition watch_invariant (env : Env) (w : World) : Prop :=
  watches w = match watchId w with Some h => [h] | None => [] end
  ∧ (isTracking (state w) = false → watchId w = None)
  ∧ (is_Some (watchId w) → geolocation env = true).

(** The session holds the identity [u], also in its storage slot. *)
Definition identity_is (u : string) (w : World) : Prop :=
  userId (state w) = Some u
  ∧ userIdSet (state w) = true
  ∧ localStorage w !! current_user_id = Some u.

(** The page has the elements [updateDeviceInfo] writes to. *)
Definition device_info_elements (env : Env) : Prop :=
  document env "userID" = true
  ∧ document env "deviceInfo" = true
  ∧ document env "sessionCount" = true.

(** The page has the elements [updateLocationDisplay] writes to. *)
Definition location_display_elements (env : Env) : Prop :=
  Forall (fun id => document env id = true)
    ["currentLat"; "currentLon"; "currentAccuracy"; "accuracyStatus";
     "currentTime"; "lastUpdateTime"].

(** ** Vocabulary of the further properties *)

(** What [validateUserIdInput(value)] leaves in the elements
    [validationMessage] ([textContent], [className]) and [submitUserIdBtn]
    ([disabled]). *)
Record ValidationDisplay := {
  message_text : string;
  message_class : string;
  submit_disabled : bool
}.

(** [validateUserIdInput(value)], as the writes it ends with; nothing is
    written when one of the two elements is missing. *)
Definition validateUserIdInput_display (env : Env) (value : string)
  : option ValidationDisplay :=
  if negb (document env "validationMessage") || negb (document env "submitUserIdBtn")
  then None
  else if String.eqb value "" then
    Some {| message_text := ""; message_class := "validation-message";
            submit_disabled := true |}
  else if negb (test_format value) then
    Some {| message_text := "⚠️ Only letters, numbers, underscores, and hyphens allowed";
            message_class := "validation-message error";
            submit_disabled := true |}
  else if (String.length value <? 3)%nat then
    Some {| message_text := "⚠️ User ID must be at least 3 characters";
            message_class := "validation-message warning";
            submit_disabled := true |}
  else if (50 <? String.length value)%nat then
    Some {| message_text := "⚠️ User ID must not exceed 50 characters";
            message_class := "validation-message error";
            submit_disabled := true |}
  else
    Some {| message_text := "✓ Valid User ID";
            message_class := "validation-message success";
            submit_disabled := false |}.

(** [s.includes(needle)] *)
Definition includes (s needle : string) : bool :=
  match String.index 0 needle s with
  | Some _ => true
  | None => false
  end.

(** [getDeviceInfo()], on [navigator.userAgent]. *)
Definition getDeviceInfo (ua : string) : string :=
  if includes ua "iPhone" then "iPhone"
  else if includes ua "iPad" then "iPad"
  else if includes ua "Android" then "Android"
  else if includes ua "Windows" then "Windows"
  else if includes ua "Mac" then "macOS"
  else "Unknown Device".

(** A parked [submitUserId] carries a candidate that passed line 209. *)
Definition task_ok (t : Task) : Prop :=
  match t with
  | HistoryFetch u | HistoryBody u => invalid_format u = false
  | _ => True
  end.

Definition tasks_ok (w : World) : Prop := Forall task_ok (pending w).

(** The two shapes of a request: a push of a five-field body to
    [backendUrl], or a history lookup of a candidate that passed line 209. *)
Definition request_ok (r : Request) : Prop :=
  (req_method r = POST ∧ req_url r = backendUrl
   ∧ ∃ body, req_body r = Some body ∧ map fst body = payload_fields)
  ∨ (req_method r = GET ∧ req_body r = None
     ∧ ∃ u, invalid_format u = false ∧ req_url r = historyUrl u).

Definition requests_ok (w : World) : Prop := Forall request_ok (requests w).

(** The identity and the flags agree: the identity is set exactly when
    [userIdSet] is, it passed line 209 and is in the slot
    [current_user_id]; tracking and initialization need an identity. *)
Definition identity_consistent (w : World) : Prop :=
  (userIdSet (state w) = true ↔ is_Some (userId (state w)))
  ∧ (isTracking (state w) = true → userIdSet (state w) = true)
  ∧ (isInitialized (state w) = true → userIdSet (state w) = true)
  ∧ (∀ u, userId (state w) = Some u →
       invalid_format u = false ∧ localStorage w !! current_user_id = Some u).

(** The alphabet of the format check, as a string. *)
Definition id_alphabet : string :=
  "abcdefghijklmnopqrstuvwxyzABCDEFGHIJKLMNOPQRSTUVWXYZ0123456789_-".

(** The concrete browser without the geolocation API. *)
Definition browser_without_geolocation : Env := {|
  document := document Browser.env;
  geolocation := false;
  permissions := permissions Browser.env;
  clock := clock Browser.env;
  toISOString := toISOString Browser.env;
  toLocaleTimeString := toLocaleTimeString Browser.env;
  trim := trim Browser.env;
  parseInt := parseInt Browser.env;
  JSON_parse := JSON_parse Browser.env;
  gt_zero := gt_zero Browser.env
|}.

(** The concrete browser on a page without the element [currentTime]. *)
Definition browser_without_currentTime : Env := {|
  document := fun id => negb (String.eqb id "currentTime");
  geolocation := geolocation Browser.env;
  permissions := permissions Browser.env;
  clock := clock Browser.env;
  toISOString := toISOString Browser.env;
  toLocaleTimeString := toLocaleTimeString Browser.env;
  trim := trim Browser.env;
  parseInt := parseInt Browser.env;
  JSON_parse := JSON_parse Browser.env;
  gt_zero := gt_zero Browser.env
|}.


(** The elements [updateLocationDisplay] writes to, in source order. *)
Definition location_display_ids : list string :=
  ["currentLat"; "currentLon"; "currentAccuracy"; "accuracyStatus";
   "currentTime"; "lastUpdateTime"].

(** [n] tracking sessions: [startTracking()] then [stopTracking()], [n]
    times. *)
Fixpoint sessions (n : nat) : list Event :=
  match n with
  | O => []
  | S m => StartTracking :: StopTracking :: sessions m
  end.

(** What a delivery leaves alone. *)
Definition same_session (w w' : World) : Prop :=
  isTracking (state w') = isTracking (state w)
  ∧ watchId w' = watchId w
  ∧ watches w' = watches w
  ∧ userId (state w') = userId (state w)
  ∧ userIdSet (state w') = userIdSet (state w)
  ∧ sessionCount (state w') = sessionCount (state w)
  ∧ localStorage w' = localStorage w
  ∧ statusLog w' = statusLog w.

(** [needle] occurs in [s]. *)
Definition occurs_in (needle s : string) : Prop :=
  ∃ before after, s = before +:+ needle +:+ after.

(** The three histories of a world extend those of an earlier one. *)
Definition extends (w w' : World) : Prop :=
  locations (state w) `prefix_of` locations (state w')
  ∧ requests w `prefix_of` requests w'
  ∧ statusLog w `prefix_of` statusLog w'.

(** * Proof tools *)

Create HintDb js discriminated.
#[global] Hint Unfold
  debug setStatus showValidationError showUserIdModal hideUserIdModal
  updateDeviceInfo updateSessionCount updateLocationDisplay addLocationLog
  getUserId validateUserIdInput updatePermissionStatus property_id
  length_gt_zero startTracking stopTracking getLocation sendToBackend_catch
  sendToBackend sendToBackend_response sendToBackend_body onLocationSuccess
  onLocationError submitUserId_available submitUserId_catch submitUserId
  submitUserId_response submitUserId_body checkPermissions_settled init
  input_value getItem setItem fetch suspend : js.

(** Facts of the form [preserves P m] proved by hand. *)
Create HintDb preserved discriminated.

(** Decide a test that blocks the computation: one whose scrutinee holds
    no other test. *)
Ltac case_scrutinee :=
  match goal with
  | |- context [match ?x with _ => _ end] =>
      lazymatch x with
      | context [match _ with _ => _ end] => fail
      | _ => destruct x eqn:?
      end
  end.

Ltac cases := repeat (case_scrutinee; simpl in *; simplify_eq).

(** Run a method on a symbolic world. *)
Ltac evaluate :=
  unfold exec; autounfold with js;
  unfold bind, ret, read, update, throw, try_catch, new_Date, element,
    watchPosition, clearWatch;
  simpl.

(** A leaf of a method: a statement that is not a sequence.  When the
    predicate does not look at what the statement writes, the hypothesis is
    the goal after computation. *)
Ltac preserve_leaf :=
  let w := fresh "w" in
  let H := fresh "H" in
  intros w H;
  unfold update, read, new_Date, element, watchPosition, clearWatch;
  repeat case_match; exact H.

(** * Properties *)

(** ** Statement lists and what they keep *)

Section Preservation.

Context (P : World → Prop).

Lemma preserves_ret {A} (a : A) : preserves P (ret a).
Proof. by intros w H. Qed.

Lemma preserves_throw {A} e : preserves P (@throw A e).
Proof. by intros w H. Qed.

Lemma preserves_bind {A B} (m : M A) (k : A → M B) :
  preserves P m → (∀ a, preserves P (k a)) → preserves P (bind m k).
Proof.
  intros Hm Hk w H. unfold bind. specialize (Hm w H).
  destruct (m w) as [[a | e] w']; simpl in *; [by apply Hk | done].
Qed.

Lemma preserves_try_catch {A} (body : M A) handler :
  preserves P body → (∀ e, preserves P (handler e)) →
  preserves P (try_catch body handler).
Proof.
  intros Hm Hk w H. unfold try_catch. specialize (Hm w H).
  destruct (body w) as [[a | e] w']; simpl in *; [done | by apply Hk].
Qed.

(** A predicate kept by every entry point and every continuation is kept
    by every event. *)
Lemma preserves_step env :
  (∀ value, preserves P (submitUserId env value)) →
  preserves P (startTracking env) →
  preserves P (stopTracking env) →
  preserves P (getLocation env) →
  (∀ coords, preserves P (onLocationSuccess env coords)) →
  (∀ code, preserves P (onLocationError env code)) →
  (∀ st, preserves P (updatePermissionStatus env st)) →
  (∀ t s k, resume env t s = Some k → preserves P k) →
  (∀ w l, P w → P (set_pending l w)) →
  ∀ w ev, P w → P (step env w ev).
Proof.
  intros Hsubmit Hstart Hstop Hget Hok Herr Hperm Hresume Hpending w ev H.
  destruct ev; simpl; unfold exec; try done; try by eauto.
  - by apply Hsubmit.
  - by apply Hok.
  - by apply Herr.
  - by apply Hperm.
  - destruct (pending w !! i) as [t |]; [| done].
    destruct (resume env t s) as [k |] eqn:Hk; [| done].
    apply (Hresume _ _ _ Hk). by apply Hpending.
Qed.

Lemma preserves_run env :
  (∀ w ev, P w → P (step env w ev)) →
  ∀ events w, P w → P (run env w events).
Proof.
  intros Hstep events. induction events as [| ev events IH]; intros w H; simpl;
    [done |].
  apply IH. by apply Hstep.
Qed.

End Preservation.

(** Unfold the method a goal [preserves P (method args)] is about. *)
Ltac head_of t :=
  lazymatch t with
  | ?f _ => head_of f
  | _ => t
  end.

Ltac unfold_method :=
  lazymatch goal with
  | |- preserves _ ?m =>
      let h := head_of m in
      lazymatch h with
      | @ret => fail
      | @throw => fail
      | @bind => fail
      | @try_catch => fail
      | @update => fail
      | @read => fail
      | new_Date => fail
      | element => fail
      | watchPosition => fail
      | clearWatch => fail
      | _ => progress unfold h
      end
  end.

(** Split a method into its statements, its branches and its leaves; the
    leaves that write what the predicate reads are left as goals. *)
Ltac preserve_step :=
  first
    [ solve [auto 1 with preserved nocore]
    | unfold_method
    | apply preserves_ret
    | apply preserves_throw
    | apply preserves_bind; [| intros ?; cbv beta]
    | apply preserves_try_catch; [| intros ?; cbv beta]
    | solve [preserve_leaf]
    | progress case_match ].

Ltac preserve := repeat preserve_step.

(** ** The debug log *)

Lemma debug_eq env message type w :
  debug env message type w =
  (Normal tt,
   with_state (fun s =>
     set_debugLogs
       (push_bounded (debugLogs s)
          {| log_message := message; log_type := type;
             log_timestamp := toLocaleTimeString env (clock env (ticks w)) |}) s)
     (set_ticks (S (ticks w)) w)).
Proof. reflexivity. Qed.

Lemma push_bounded_room (logs : list LogEntry) e :
  (length logs < maxDebugLogs)%nat → push_bounded logs e = logs ++ [e].
Proof.
  intros Hlt. unfold push_bounded. rewrite length_app. simpl.
  destruct (Nat.ltb_spec maxDebugLogs (length logs + 1)); [lia | done].
Qed.

Lemma push_bounded_full (logs : list LogEntry) e :
  (maxDebugLogs ≤ length logs)%nat → push_bounded logs e = tail logs ++ [e].
Proof.
  intros Hge. unfold push_bounded. rewrite length_app. simpl.
  destruct (Nat.ltb_spec maxDebugLogs (length logs + 1)); [| lia].
  destruct logs; [simpl in Hge; unfold maxDebugLogs in Hge; lia | done].
Qed.

Lemma push_bounded_length (logs : list LogEntry) e :
  (length logs ≤ maxDebugLogs)%nat →
  (length (push_bounded logs e) ≤ maxDebugLogs)%nat.
Proof.
  intros Hle. destruct (decide (length logs < maxDebugLogs)%nat).
  - rewrite push_bounded_room by done. rewrite length_app. simpl. lia.
  - rewrite push_bounded_full by lia. rewrite length_app. simpl.
    destruct logs; simpl in *; [unfold maxDebugLogs; lia | lia].
Qed.

(** Pushing onto a log within the bound keeps the last [maxDebugLogs]
    entries of the log with the new entry at its tail. *)
Lemma push_bounded_drop (logs : list LogEntry) e :
  (length logs ≤ maxDebugLogs)%nat →
  push_bounded logs e =
  drop (length (logs ++ [e]) - maxDebugLogs) (logs ++ [e]).
Proof.
  intros Hle. rewrite length_app. simpl.
  destruct (decide (length logs < maxDebugLogs)%nat).
  - rewrite push_bounded_room by done.
    replace (length logs + 1 - maxDebugLogs)%nat with 0%nat by lia. done.
  - rewrite push_bounded_full by lia.
    replace (length logs + 1 - maxDebugLogs)%nat with 1%nat by lia.
    destruct logs; [simpl in *; unfold maxDebugLogs in *; lia | done].
Qed.

Lemma debug_calls_log env calls : ∀ w,
  (length (debugLogs (state w)) ≤ maxDebugLogs)%nat →
  let everything := debugLogs (state w) ++ entries_of env (ticks w) calls in
  debug_calls env calls w =
    (Normal tt, snd (debug_calls env calls w))
  ∧ debugLogs (state (exec (debug_calls env calls) w)) =
    drop (length everything - maxDebugLogs) everything.
Proof.
  induction calls as [| [message type] rest IH]; intros w Hle; simpl.
  - split; [done |]. rewrite app_nil_r.
    replace (length (debugLogs (state w)) - maxDebugLogs)%nat with 0%nat by lia.
    done.
  - unfold exec, bind. rewrite debug_eq.
    set (e := {| log_message := message |}).
    set (w1 := with_state _ _).
    assert (Hlog : debugLogs (state w1) = push_bounded (debugLogs (state w)) e)
      by done.
    assert (Hle1 : (length (debugLogs (state w1)) ≤ maxDebugLogs)%nat)
      by (rewrite Hlog; by apply push_bounded_length).
    destruct (IH w1 Hle1) as [Hrun Hdrop]. simpl in Hrun, Hdrop.
    split; [by rewrite Hrun at 1 |].
    unfold exec in Hdrop. rewrite Hdrop.
    rewrite push_bounded_drop by done.
    set (rest' := entries_of env (S (ticks w)) rest).
    rewrite !length_app, length_drop, !length_app. simpl.
    replace (debugLogs (state w) ++ e :: rest')
      with ((debugLogs (state w) ++ [e]) ++ rest') by (by rewrite <- app_assoc).
    destruct (decide (length (debugLogs (state w)) < maxDebugLogs)%nat).
    + replace (length (debugLogs (state w)) + 1 - maxDebugLogs)%nat
        with 0%nat by lia.
      simpl. f_equal. lia.
    + replace (length (debugLogs (state w)) + 1 - maxDebugLogs)%nat
        with 1%nat by lia.
      rewrite <- (drop_app_le (debugLogs (state w) ++ [e]) rest' 1)
        by (rewrite length_app; simpl; lia).
      rewrite drop_drop. f_equal. lia.
Qed.

Lemma log_bounded_debug env message type :
  preserves log_bounded (debug env message type).
Proof.
  intros w H. rewrite debug_eq. unfold log_bounded in *. simpl.
  by apply push_bounded_length.
Qed.

#[local] Hint Resolve log_bounded_debug : preserved.

(** Every world a constructed page can reach has its log within the bound. *)
Lemma log_bounded_reachable env storage events :
  log_bounded (run env (construct env storage) events).
Proof.
  apply (preserves_run log_bounded).
  - apply preserves_step; try done; try (intros; by preserve).
    intros t s k Hk. destruct t, s; simpl in Hk; simplify_eq; preserve.
  - assert (Hinit : preserves log_bounded (init env)) by preserve.
    apply Hinit. unfold log_bounded, maxDebugLogs. simpl. lia.
Qed.

(** C9.  The debug log is bounded with FIFO eviction.  In any world a
    constructed page can reach, the log has at most 50 entries; any run of
    [debug] calls from there leaves a log of at most 50 entries, holding the
    most recent entries of everything appended, in append order; and one
    call appends its entry at the tail, removing the single oldest entry
    when the log was full. *)
Theorem debug_log_bounded_fifo env storage events (calls : list (Message * Severity)) :
  let w := run env (construct env storage) events in
  let logs := debugLogs (state w) in
  let everything := logs ++ entries_of env (ticks w) calls in
  let w' := exec (debug_calls env calls) w in
  maxDebugLogs = 50%nat
  ∧ (length logs ≤ 50)%nat
  ∧ (length (debugLogs (state w')) ≤ 50)%nat
  ∧ debugLogs (state w') = drop (length everything - 50) everything
  ∧ ∀ message type,
      let e := {| log_message := message; log_type := type;
                  log_timestamp := toLocaleTimeString env (clock env (ticks w)) |} in
      debugLogs (state (exec (debug env message type) w)) =
      if (length logs <? 50)%nat then logs ++ [e] else tail logs ++ [e].
Proof.
  intros w logs everything w'.
  pose proof (log_bounded_reachable env storage events) as Hle.
  fold w in Hle. unfold log_bounded in Hle.
  destruct (debug_calls_log env calls w Hle) as [_ Hdrop].
  split; [done |]. split; [done |]. split; [| split].
  - subst w'. rewrite Hdrop. rewrite length_drop.
    change maxDebugLogs with 50%nat. lia.
  - exact Hdrop.
  - intros message type e. unfold exec. rewrite debug_eq. simpl.
    fold logs. destruct (Nat.ltb_spec (length logs) 50).
    + by apply push_bounded_room.
    + by apply push_bounded_full.
Qed.

Lemma debug_log_bounded_fifo_witness :
  let calls := replicate 60 (Text "tick", info) in
  let w' := exec (debug_calls Browser.env calls) (construct Browser.env ∅) in
  (length (debugLogs (state w')) ≤ 50)%nat
  ∧ head (debugLogs (state w')) =
      Some {| log_message := Text "tick"; log_type := info;
              log_timestamp := "11" |}.
Proof.
  intros calls w'.
  pose proof (debug_log_bounded_fifo Browser.env ∅ [] calls) as H.
  cbv zeta in H. destruct H as (_ & _ & Hle & Hdrop & _).
  split; [exact Hle |].
  change (run Browser.env (construct Browser.env ∅) []) with
    (construct Browser.env ∅) in Hdrop.
  fold calls in Hdrop. fold w' in Hdrop. rewrite Hdrop.
  vm_compute. reflexivity.
Defined.

(** ** Delivery *)

Lemma locations_sendToBackend env l d :
  preserves (locations_are l) (sendToBackend env d).
Proof. intros w H. by evaluate. Qed.

#[local] Hint Resolve locations_sendToBackend : preserved.

(** Only the settlement of a promise [sendToBackend] waits on appends to
    the sample log, and it appends the sample of that call. *)
Lemma locations_step env w ev :
  locations (state (step env w ev)) = locations (state w)
  ∨ ∃ i s d,
      ev = Resume i s
      ∧ (pending w !! i = Some (PushFetch d) ∨ pending w !! i = Some (PushBody d))
      ∧ locations (state (step env w ev)) = locations (state w) ++ [d].
Proof.
  assert (Hkeep : ∀ A (m : M A), preserves (locations_are (locations (state w))) m →
                  ∀ w0, locations (state w0) = locations (state w) →
                        locations (state (exec m w0)) = locations (state w))
    by (intros A m Hm w0 Hw0; by apply Hm).
  destruct ev; simpl; try (left; apply Hkeep; [by preserve | done]).
  destruct (pending w !! i) as [t |] eqn:Hi; [| by left].
  destruct t, s; simpl; try (by left);
    try (left; apply Hkeep; [by preserve | done]).
  - destruct o as [reason | r]; [| destruct (ok r) eqn:Hok].
    + right. exists i, (FetchSettled (Rejected reason)), d.
      split; [done |]. split; [by left |]. by evaluate.
    + left. evaluate. by rewrite Hok.
    + right. exists i, (FetchSettled (Responded r)), d.
      split; [done |]. split; [by left |]. evaluate. by rewrite Hok.
  - right. exists i, (BodySettled o), d.
    split; [done |]. split; [by right |].
    destruct o as [reason | data]; evaluate; [done |]. by destruct data.
Qed.

(** C1.  Every sample given to [sendToBackend] is appended to
    [state.locations] exactly once, whatever the collector does.  The call
    itself appends nothing and parks one task.  When the promise of [fetch]
    settles, a rejection (network error) or a status outside 200-299 appends
    the sample once and ends the call; a 2xx status appends nothing and
    parks the call at [response.json()].  When that promise settles, a
    rejection (unreadable body), a null body and any other body each append
    the sample once and end the call.  No other event appends to the log. *)
Theorem every_sample_logged_once env (d : LocationData) :
  (∀ w, let w' := exec (sendToBackend env d) w in
     locations (state w') = locations (state w)
     ∧ pending w' = pending w ++ [PushFetch d])
  ∧ (∀ w i o, pending w !! i = Some (PushFetch d) →
     let w' := step env w (Resume i (FetchSettled o)) in
     match o with
     | Responded r =>
         if ok r then
           locations (state w') = locations (state w)
           ∧ pending w' = delete i (pending w) ++ [PushBody d]
         else
           locations (state w') = locations (state w) ++ [d]
           ∧ pending w' = delete i (pending w)
     | Rejected _ =>
         locations (state w') = locations (state w) ++ [d]
         ∧ pending w' = delete i (pending w)
     end)
  ∧ (∀ w i o, pending w !! i = Some (PushBody d) →
     let w' := step env w (Resume i (BodySettled o)) in
     locations (state w') = locations (state w) ++ [d]
     ∧ pending w' = delete i (pending w))
  ∧ (∀ w ev,
     locations (state (step env w ev)) = locations (state w)
     ∨ ∃ i s d',
         ev = Resume i s
         ∧ (pending w !! i = Some (PushFetch d')
            ∨ pending w !! i = Some (PushBody d'))
         ∧ locations (state (step env w ev)) = locations (state w) ++ [d']).
Proof.
  split_and?.
  - intros w. by evaluate.
  - intros w i o Hi. simpl. rewrite Hi. simpl.
    destruct o as [reason | r]; evaluate; [done |].
    by destruct (ok r).
  - intros w i o Hi. simpl. rewrite Hi. simpl.
    destruct o as [reason | data]; evaluate; [done |].
    by destruct data.
  - apply locations_step.
Qed.

Lemma every_sample_logged_once_witness :
  let d := {| latitude := 375; longitude := 1270; accuracy := 123;
              altitude := None; heading := None; speed := None;
              timestamp := "T" |} in
  let w := exec (sendToBackend Browser.env d) (fresh ∅) in
  let unreachable := Resume 0 (FetchSettled (Rejected "Failed to fetch")) in
  locations (state w) = []
  ∧ pending w !! 0%nat = Some (PushFetch d)
  ∧ locations (state (step Browser.env w unreachable)) = [d].
Proof.
  intros d w unreachable.
  destruct (every_sample_logged_once Browser.env d) as (Hcall & Hfetch & _).
  destruct (Hcall (fresh ∅)) as [Hnone _].
  assert (Hpending : pending w !! 0%nat = Some (PushFetch d)) by reflexivity.
  destruct (Hfetch w 0%nat (Rejected "Failed to fetch") Hpending) as [Hone _].
  split; [exact Hnone |]. split; [exact Hpending |].
  fold unreachable in Hone. rewrite Hone. reflexivity.
Defined.

(** C8.  The request [sendToBackend] hands to [fetch] carries exactly the
    five fields [user_id], [latitude], [longitude], [accuracy] and
    [timestamp], the last four with the values of the sample.  The sample
    that [onLocationSuccess] builds keeps [altitude], [heading] and [speed]
    of the position, and the request it causes, when the page has the
    display elements, has none of the three. *)
Theorem payload_has_five_fields env :
  (∀ w d,
     ∃ body,
       requests (exec (sendToBackend env d) w) =
         requests w ++ [{| req_method := POST; req_url := backendUrl;
                           req_headers := [("Content-Type", "application/json");
                                           ("Accept", "application/json")];
                           req_body := Some body |}]
       ∧ body = [ ("user_id", match userId (state w) with
                              | Some u => VString u
                              | None => VNull
                              end);
                  ("latitude", VNumber (latitude d));
                  ("longitude", VNumber (longitude d));
                  ("accuracy", VNumber (accuracy d));
                  ("timestamp", VString (timestamp d)) ]
       ∧ map fst body = payload_fields
       ∧ ("altitude" ∉ map fst body)
       ∧ ("heading" ∉ map fst body)
       ∧ ("speed" ∉ map fst body))
  ∧ (∀ w coords,
       let d := sample_of env coords (clock env (ticks w)) in
       let w' := exec (onLocationSuccess env coords) w in
       lastLocation (state w') = Some d
       ∧ altitude d = c_altitude coords
       ∧ heading d = c_heading coords
       ∧ speed d = c_speed coords
       ∧ (location_display_elements env →
          requests w' =
            requests w ++ [{| req_method := POST; req_url := backendUrl;
                              req_headers := [("Content-Type", "application/json");
                                              ("Accept", "application/json")];
                              req_body := Some (payload_of (userId (state w)) d) |}]
          ∧ pending w' = pending w ++ [PushFetch d])).
Proof.
  split.
  - intros w d. eexists. split; [by evaluate |].
    split; [done |]. split; [done |].
    simpl. repeat split; by apply (bool_decide_unpack _).
  - intros w coords d w'. subst w'.
    split; [| split; [done | split; [done | split; [done |]]]].
    + evaluate. by cases.
    + intros Hdoc. unfold location_display_elements in Hdoc.
      rewrite !Forall_cons in Hdoc.
      destruct Hdoc as (H1 & H2 & H3 & H4 & H5 & H6 & _).
      evaluate. by rewrite H1, H2, H3, H4, H5, H6.
Qed.

Lemma payload_has_five_fields_witness :
  let coords := {| c_latitude := 375; c_longitude := 1270; c_accuracy := 123;
                   c_altitude := Some 40; c_heading := None;
                   c_speed := Some 2 |} in
  let w := exec (onLocationSuccess Browser.env coords) (fresh ∅) in
  (altitude <$> lastLocation (state w)) = Some (Some 40)
  ∧ (req_body <$> requests w) =
      [Some [("user_id", VNull); ("latitude", VNumber 375);
             ("longitude", VNumber 1270); ("accuracy", VNumber 123);
             ("timestamp", VString "0")]].
Proof.
  intros coords w.
  destruct (payload_has_five_fields Browser.env) as [_ Hsample].
  destruct (Hsample (fresh ∅) coords) as (Hlast & _ & _ & _ & Hrequest).
  destruct Hrequest as [Hrequest _].
  { unfold location_display_elements. repeat constructor. }
  fold w in Hlast, Hrequest. rewrite Hlast, Hrequest. split; reflexivity.
Defined.

(** ** The stored items *)

Lemma tracking_data_current id : current_user_id ≠ tracking_data_ id.
Proof. done. Qed.

Lemma tracking_data_session id u : session_count_ u ≠ tracking_data_ id.
Proof. done. Qed.

Lemma tracking_data_setItem id v key value :
  key ≠ tracking_data_ id →
  preserves (tracking_data_is id v) (update (fun w =>
    set_localStorage (<[key := value]> (localStorage w)) w)).
Proof.
  intros Hne w H. unfold tracking_data_is in *. simpl.
  by rewrite lookup_insert_ne.
Qed.

Ltac tracking_data :=
  preserve;
  try (apply tracking_data_setItem;
       first [apply tracking_data_current | apply tracking_data_session]).

Lemma tracking_data_step env id v w ev :
  tracking_data_is id v w → tracking_data_is id v (step env w ev).
Proof.
  apply preserves_step; try done; try (intros; by tracking_data).
  intros t s k Hk. destruct t, s; simpl in Hk; simplify_eq; tracking_data.
Qed.

Lemma tracking_data_construct env id v storage :
  storage !! tracking_data_ id = v →
  tracking_data_is id v (construct env storage).
Proof.
  intros H. unfold construct, exec.
  assert (Hinit : preserves (tracking_data_is id v) (init env)) by tracking_data.
  by apply Hinit.
Qed.

(** C10.  No operation writes the key [tracking_data_{identity}]: after any
    sequence of events, from any world, the key holds what it held before,
    for every identity; so does it on a page constructed over any stored
    items, where it stays absent if it was absent, and absent is what the
    offline check of [submitUserId] then reads.  [addLocationLog] appends
    to the in-memory [locations] and leaves the stored items alone. *)
Theorem tracking_data_never_written env events id :
  (∀ w, localStorage (run env w events) !! tracking_data_ id =
        localStorage w !! tracking_data_ id)
  ∧ (∀ storage,
       let w := run env (construct env storage) events in
       localStorage w !! tracking_data_ id = storage !! tracking_data_ id
       ∧ (storage !! tracking_data_ id = None →
          fst (getItem (tracking_data_ id) w) = Normal None))
  ∧ ∀ d w,
      localStorage (exec (addLocationLog d) w) = localStorage w
      ∧ locations (state (exec (addLocationLog d) w)) =
        locations (state w) ++ [d].
Proof.
  assert (Hrun : ∀ v w, tracking_data_is id v w →
                        tracking_data_is id v (run env w events)).
  { intros v. apply preserves_run. intros w ev. apply tracking_data_step. }
  split_and?; [| | done].
  - intros w. by apply Hrun.
  - intros storage w.
    assert (H : tracking_data_is id (storage !! tracking_data_ id) w)
      by (by apply Hrun, tracking_data_construct).
    split; [exact H |].
    intros Hnone. unfold getItem, read. simpl.
    unfold tracking_data_is in H. by rewrite H, Hnone.
Qed.

(** ** The identity *)

Lemma all_id_chars_false s c :
  c ∈ chars s → id_char c = false → all_id_chars s = false.
Proof.
  induction s as [| c' rest IH]; simpl; intros Hin Hc.
  - by apply elem_of_nil in Hin.
  - apply elem_of_cons in Hin as [<- | Hin].
    + by rewrite Hc.
    + rewrite IH by done. apply andb_false_r.
Qed.

(** The condition of line 209, in words: some character is outside
    [A-Za-z0-9_-], or the length is below 3 or above 50. *)
Lemma invalid_format_rule s :
  (∃ c, c ∈ chars s ∧ id_char c = false)
  ∨ (String.length s < 3)%nat ∨ (50 < String.length s)%nat →
  invalid_format s = true.
Proof.
  unfold invalid_format. intros [(c & Hin & Hc) | [Hlt | Hgt]].
  - destruct s as [| c' rest]; [done |].
    unfold test_format. by rewrite (all_id_chars_false _ c).
  - apply Nat.ltb_lt in Hlt. rewrite Hlt. by rewrite orb_true_r.
  - apply Nat.ltb_lt in Hgt. rewrite Hgt. by rewrite orb_true_r.
Qed.

(** C5.  A candidate that breaks the format rule is refused before any
    request: [submitUserId] reports a validation error ([Please enter a
    User ID] for the empty candidate, [Invalid User ID format] otherwise),
    calls [fetch] for nothing, parks nothing, and leaves the identity, the
    two flags and every stored item as they were. *)
Theorem invalid_format_rejected env (w : World) (value : string) :
  let candidate := input_value env value in
  (∃ c, c ∈ chars candidate ∧ id_char c = false)
  ∨ (String.length candidate < 3)%nat ∨ (50 < String.length candidate)%nat →
  let w' := exec (submitUserId env value) w in
  let message :=
    if String.eqb candidate "" then Text "Please enter a User ID"
    else Text "Invalid User ID format" in
  statusLog w' = statusLog w ++ [(message, error)]
  ∧ requests w' = requests w
  ∧ pending w' = pending w
  ∧ userId (state w') = userId (state w)
  ∧ userIdSet (state w') = userIdSet (state w)
  ∧ isInitialized (state w') = isInitialized (state w)
  ∧ localStorage w' = localStorage w.
Proof.
  intros candidate Hrule w' message. subst w' message.
  apply invalid_format_rule in Hrule.
  unfold exec, submitUserId. fold candidate.
  destruct (String.eqb candidate "").
  - by evaluate.
  - rewrite Hrule. by evaluate.
Qed.

Lemma invalid_format_rejected_witness :
  let w := construct Browser.env ∅ in
  let w' := exec (submitUserId Browser.env " ab ") w in
  input_value Browser.env " ab " = "ab"
  ∧ statusLog w' = statusLog w ++ [(Text "Invalid User ID format", error)]
  ∧ requests w' = requests w.
Proof.
  assert (Hrule :
    (∃ c, c ∈ chars (input_value Browser.env " ab ") ∧ id_char c = false)
    ∨ (String.length (input_value Browser.env " ab ") < 3)%nat
    ∨ (50 < String.length (input_value Browser.env " ab "))%nat)
    by (right; left; vm_compute; lia).
  destruct (invalid_format_rejected Browser.env (construct Browser.env ∅) " ab " Hrule)
    as (Hstatus & Hrequests & _).
  split; [reflexivity |]. split; [exact Hstatus | exact Hrequests].
Defined.

(** C2, as the code has it.  For a well-formed candidate, on a page that
    has the elements [userID], [deviceInfo] and [sessionCount] and with a
    [JSON.parse] that reads the text of the empty array as the empty array,
    [submitUserId] sends the history lookup and waits.  If the lookup is
    unreachable (the promise of [fetch] rejects), the local check decides:
    when [tracking_data_{candidate}] holds a non-empty text that parses to
    a non-empty array, the submit fails with the error [already used
    locally] and identity, flags and storage stay as they were; when the
    key is absent, or holds the empty text, or holds a text that parses to
    the empty array, the identity is accepted with the [warning] status of
    the offline mode.  If the lookup answers with a status outside 200-299
    the [catch] block does not run and the local log is not consulted: the
    identity is accepted with the [success] status, whatever
    [tracking_data_{candidate}] holds, and the debug log gets the one entry
    of the acceptance. *)
Theorem offline_check_only_when_unreachable env (value u : string) :
  input_value env value = u →
  invalid_format u = false →
  device_info_elements env →
  JSON_parse env "[]" = Some (JArray []) →
  (∀ w, let w' := exec (submitUserId env value) w in
     requests w' = requests w ++ [{| req_method := GET; req_url := historyUrl u;
                                     req_headers := [("Accept", "application/json")];
                                     req_body := None |}]
     ∧ pending w' = pending w ++ [HistoryFetch u])
  ∧ (∀ w reason stored record others,
       localStorage w !! tracking_data_ u = Some stored → stored ≠ "" →
       JSON_parse env stored = Some (JArray (record :: others)) →
       let w' := exec (submitUserId_response env u (Rejected reason)) w in
       statusLog w' = statusLog w ++ [(UsedLocally u, error)]
       ∧ userId (state w') = userId (state w)
       ∧ userIdSet (state w') = userIdSet (state w)
       ∧ isInitialized (state w') = isInitialized (state w)
       ∧ localStorage w' = localStorage w)
  ∧ (∀ w reason,
       localStorage w !! tracking_data_ u = None
       ∨ localStorage w !! tracking_data_ u = Some ""
       ∨ (∃ stored, localStorage w !! tracking_data_ u = Some stored
                    ∧ JSON_parse env stored = Some (JArray [])) →
       let w' := exec (submitUserId_response env u (Rejected reason)) w in
       statusLog w' = statusLog w ++ [(Text "⚠️ Offline mode - Ready to track", warning)]
       ∧ identity_is u w'
       ∧ isInitialized (state w') = true)
  ∧ (∀ w r,
       ok r = false →
       let w' := exec (submitUserId_response env u (Responded r)) w in
       statusLog w' = statusLog w ++ [(Text "✓ Ready to track", success)]
       ∧ identity_is u w'
       ∧ isInitialized (state w') = true
       ∧ localStorage w' !! tracking_data_ u = localStorage w !! tracking_data_ u
       ∧ debugLogs (state w') =
           push_bounded (debugLogs (state w))
             {| log_message := VerifiedAndSet u; log_type := success;
                log_timestamp := toLocaleTimeString env (clock env (ticks w)) |}).
Proof.
  intros Hvalue Hformat (Hd1 & Hd2 & Hd3) Hempty. split_and?.
  - intros w. evaluate. unfold input_value in Hvalue. rewrite Hvalue.
    destruct (String.eqb_spec u "") as [-> | _]; [done |].
    by rewrite Hformat.
  - intros w reason stored record others Hstored Hne Hparse. evaluate.
    rewrite Hstored. simpl.
    destruct stored as [| c rest]; [done |]. simpl. by rewrite Hparse.
  - intros w reason Hlocal. unfold identity_is.
    assert (Hread : JSON_parse env (or_else (localStorage w !! tracking_data_ u) "[]")
                    = Some (JArray [])).
    { destruct Hlocal as [-> | [-> | (stored & -> & Hparse)]]; try exact Hempty.
      destruct stored; [exact Hempty | exact Hparse]. }
    evaluate. rewrite Hread. simpl.
    rewrite Hd1, Hd2, Hd3. simpl. by rewrite lookup_insert_eq.
  - intros w r Hok. unfold identity_is. evaluate. rewrite Hok. simpl.
    rewrite Hd1, Hd2, Hd3. simpl.
    rewrite lookup_insert_eq. by rewrite lookup_insert_ne.
Qed.

Lemma offline_check_only_when_unreachable_witness :
  let w := construct Browser.env {[ tracking_data_ "abc" := "[1]" ]} in
  let w' :=
    exec (submitUserId_response Browser.env "abc" (Rejected "Failed to fetch")) w in
  let v := construct Browser.env {[ tracking_data_ "abc" := "[]" ]} in
  let v' :=
    exec (submitUserId_response Browser.env "abc" (Rejected "Failed to fetch")) v in
  (statusLog w' = statusLog w ++ [(UsedLocally "abc", error)]
   ∧ userId (state w') = None)
  ∧ statusLog v' = statusLog v ++ [(Text "⚠️ Offline mode - Ready to track", warning)]
  ∧ userId (state v') = Some "abc".
Proof.
  intros w w' v v'.
  destruct (offline_check_only_when_unreachable Browser.env " abc" "abc")
    as (_ & Hlocal & Hoffline & _); try reflexivity; [by repeat split |].
  destruct (Hlocal w "Failed to fetch" "[1]" (JNumber "1") [])
    as (Hstatus & Hid & _); try reflexivity; [discriminate |].
  assert (Hstored : localStorage v !! tracking_data_ "abc" = None
                    ∨ localStorage v !! tracking_data_ "abc" = Some ""
                    ∨ (∃ stored, localStorage v !! tracking_data_ "abc" = Some stored
                                 ∧ JSON_parse Browser.env stored = Some (JArray [])))
    by (right; right; exists "[]"; split; reflexivity).
  destruct (Hoffline v "Failed to fetch" Hstored) as (Hwarning & (Hset & _) & _).
  split; [split; [exact Hstatus | exact Hid] |].
  split; [exact Hwarning | exact Hset].
Defined.

(** C2 fails as stated: with the collector answering 500 and a local log
    of one entry under [tracking_data_abc], the candidate [abc] is
    accepted, with the success status and no local check. *)
Lemma nonsuccess_status_skips_local_check :
  let w := construct Browser.env {[ tracking_data_ "abc" := "[1]" ]} in
  let w' :=
    run Browser.env w
      [SubmitUserId "abc";
       Resume 1 (FetchSettled
         (Responded {| status := 500; statusText := "Internal Server Error" |}))] in
  JSON_parse Browser.env "[1]" = Some (JArray [JNumber "1"])
  ∧ localStorage w' !! tracking_data_ "abc" = Some "[1]"
  ∧ userId (state w) = None
  ∧ userId (state w') = Some "abc"
  ∧ userIdSet (state w') = true
  ∧ last (statusLog w') = Some (Text "✓ Ready to track", success).
Proof. vm_compute. by repeat split. Qed.





(** ** Tracking *)

Ltac watch_done :=
  split_and?; try done; try congruence; try (by intros [? ?]);
  try (by intros; eauto).

Lemma watch_startTracking env : preserves (watch_invariant env) (startTracking env).
Proof.
  intros w (Hw & Ht & Hg). unfold watch_invariant. evaluate.
  destruct (userIdSet (state w)); simpl; [| done].
  destruct (isTracking (state w)) eqn:Htracking; simpl; [watch_done |].
  pose proof (Ht eq_refl) as Hnone. rewrite Hnone in Hw.
  destruct (geolocation env) eqn:Hgeo; cases;
    rewrite ?Hw; watch_done.
Qed.

Lemma watch_stopTracking env : preserves (watch_invariant env) (stopTracking env).
Proof.
  intros w (Hw & Ht & Hg). unfold watch_invariant. evaluate.
  destruct (isTracking (state w)) eqn:Htracking; simpl; [| watch_done].
  destruct (watchId w) as [h |] eqn:Hh; simpl.
  - rewrite (Hg (mk_is_Some _ _ eq_refl)). simpl.
    assert (Hnone : filter (λ h' : nat, h' ≠ h) (watches w) = []).
    { rewrite Hw. by rewrite filter_cons, decide_False by (by intros ?). }
    cases; rewrite ?Hnone; watch_done.
  - cases; rewrite ?Hw; watch_done.
Qed.

#[local] Hint Resolve watch_startTracking watch_stopTracking : preserved.

Lemma watch_step env w ev :
  watch_invariant env w → watch_invariant env (step env w ev).
Proof.
  apply preserves_step; try done; try (intros; by preserve).
  intros t s k Hk. destruct t, s; simpl in Hk; simplify_eq; preserve.
Qed.

Lemma watch_run env events w :
  watch_invariant env w → watch_invariant env (run env w events).
Proof. apply preserves_run. intros w0 ev. apply watch_step. Qed.

Lemma watch_construct env storage : watch_invariant env (construct env storage).
Proof.
  assert (Hinit : preserves (watch_invariant env) (init env)) by preserve.
  apply Hinit. unfold watch_invariant. simpl. watch_done.
Qed.

Lemma watch_reachable env storage events :
  watch_invariant env (run env (construct env storage) events).
Proof. apply watch_run, watch_construct. Qed.

(** C4.  After any sequence of events on a constructed page (calls of
    [startTracking()] and [stopTracking()] among them), the provider holds
    at most one subscription, the one whose handle is in [watchId], or none
    when [watchId] is null.  [startTracking()] registers nothing while a
    handle is held.  [stopTracking()] clears a held handle and leaves no
    subscription; a second [stopTracking()] right after completes normally
    and only logs the warning [Tracking not active]. *)
Theorem at_most_one_subscription env storage events :
  let w := run env (construct env storage) events in
  let w1 := exec (stopTracking env) w in
  let w2 := exec (stopTracking env) w1 in
  (length (watches w) ≤ 1)%nat
  ∧ watches w = match watchId w with Some h => [h] | None => [] end
  ∧ (is_Some (watchId w) →
     watches (exec (startTracking env) w) = watches w
     ∧ watchId (exec (startTracking env) w) = watchId w)
  ∧ (isTracking (state w) = true → watchId w1 = None ∧ watches w1 = [])
  ∧ isTracking (state w1) = false
  ∧ fst (stopTracking env w1) = Normal tt
  ∧ w2 = with_state
           (fun s => set_debugLogs
                       (push_bounded (debugLogs s) (not_active_entry env w1)) s)
           (set_ticks (S (ticks w1)) w1).
Proof.
  intros w w1 w2.
  destruct (watch_reachable env storage events) as (Hw & Ht & Hg). fold w in Hw, Ht, Hg.
  assert (Hstopped : isTracking (state w1) = false
                     ∧ (isTracking (state w) = true → watchId w1 = None ∧ watches w1 = [])).
  { subst w1. evaluate.
    destruct (isTracking (state w)) eqn:Htracking; simpl; [| done].
    destruct (watchId w) as [h |] eqn:Hh; simpl.
    - rewrite (Hg (mk_is_Some _ _ eq_refl)). simpl.
      assert (Hnone : filter (λ h' : nat, h' ≠ h) (watches w) = []).
      { rewrite Hw. by rewrite filter_cons, decide_False by (by intros ?). }
      cases; by rewrite ?Hnone.
    - cases; by rewrite ?Hw. }
  destruct Hstopped as [Hfalse Hcleared].
  split_and?; try done.
  - rewrite Hw. destruct (watchId w); simpl; lia.
  - intros Hsome.
    assert (Htracking : isTracking (state w) = true).
    { destruct (isTracking (state w)); [done |].
      rewrite (Ht eq_refl) in Hsome. by destruct Hsome. }
    evaluate. destruct (userIdSet (state w)); simpl; [| done].
    by rewrite Htracking.
  - unfold stopTracking, bind, read. by rewrite Hfalse.
  - subst w2. unfold exec, stopTracking, bind, read. by rewrite Hfalse.
Qed.

Lemma at_most_one_subscription_witness :
  let events :=
    [SubmitUserId "rider_7";
     Resume 1 (FetchSettled (Responded {| status := 404; statusText := "Not Found" |}));
     StartTracking; StartTracking] in
  let w := run Browser.env (construct Browser.env ∅) events in
  isTracking (state w) = true
  ∧ watchId w = Some 0%nat
  ∧ (length (watches w) ≤ 1)%nat
  ∧ watches (exec (stopTracking Browser.env) w) = [].
Proof.
  intros events w.
  assert (Htracking : isTracking (state w) = true) by (vm_compute; reflexivity).
  assert (Hid : watchId w = Some 0%nat) by (vm_compute; reflexivity).
  pose proof (at_most_one_subscription Browser.env ∅ events) as H.
  cbv zeta in H. destruct H as (Hle & _ & _ & Hstop & _).
  split; [exact Htracking |]. split; [exact Hid |]. split; [exact Hle |].
  exact (proj2 (Hstop Htracking)).
Defined.

Lemma round_double_exact (z : Z) : Z.abs z ≤ 2 ^ 53 → round_double z = Int z.
Proof.
  intros Hz. unfold round_double. cbv zeta.
  by rewrite (proj2 (Z.leb_le _ _) Hz).
Qed.

Lemma increment_exact (n : Z) :
  Z.abs (n + 1) ≤ 2 ^ 53 → increment (Int n) = Int (n + 1).
Proof. intros Hn. unfold increment. by apply round_double_exact. Qed.

(** Beyond [2 ^ 53] the doubles are further apart than one: [++] leaves
    [2 ^ 53] as it is, and steps by the ties of the even mantissa. *)
Lemma increment_rounds :
  increment (Int (2 ^ 53 - 1)) = Int (2 ^ 53)
  ∧ increment (Int (2 ^ 53)) = Int (2 ^ 53)
  ∧ increment (Int (2 ^ 53 + 2)) = Int (2 ^ 53 + 4)
  ∧ increment (Int (- 2 ^ 53)) = Int (- 2 ^ 53 + 1)
  ∧ increment (Int (- 2 ^ 53 - 2)) = Int (- 2 ^ 53)
  ∧ increment (Int (2 ^ 70)) = Int (2 ^ 70)
  ∧ increment NaN = NaN
  ∧ increment (Infinity false) = Infinity false.
Proof. vm_compute. by repeat split. Qed.

(** The numerals of some counters: every digit up to [2 ^ 53], the
    shortest numeral that reads back beyond, the exponent form from
    [10 ^ 21] on. *)
Lemma Number_toString_numerals :
  Number_toString (Int 0) = "0"
  ∧ Number_toString (Int (-7)) = "-7"
  ∧ Number_toString (Int (2 ^ 53)) = "9007199254740992"
  ∧ Number_toString (Int (2 ^ 53 + 2)) = "9007199254740994"
  ∧ Number_toString (Int (2 ^ 60)) = "1152921504606847000"
  ∧ Number_toString (Int (2 ^ 64)) = "18446744073709552000"
  ∧ Number_toString (Int (10 ^ 21)) = "1e+21"
  ∧ Number_toString (Int (2 ^ 70)) = "1.1805916207174113e+21"
  ∧ Number_toString (Int (- 2 ^ 70)) = "-1.1805916207174113e+21"
  ∧ Number_toString NaN = "NaN"
  ∧ Number_toString (Infinity true) = "-Infinity".
Proof. vm_compute. by repeat split. Qed.




(** C7.  On a provider error while tracking, on a page reached by any
    sequence of events: the status line gets the message of the code with
    severity [error]; code 1 runs [stopTracking], which ends tracking and
    clears the handle and the subscription; every other code (2, 3, or an
    unknown one) leaves the tracking flag, the handle and the subscriptions
    as they are and emits nothing more. *)
Theorem only_permission_denied_stops env storage events (code : Z) :
  let w := run env (construct env storage) events in
  isTracking (state w) = true →
  let w' := exec (onLocationError env code) w in
  (∃ rest, statusLog w' = statusLog w ++ (errorMessages code, error) :: rest)
  ∧ (code = 1 →
     isTracking (state w') = false ∧ watchId w' = None ∧ watches w' = [])
  ∧ (code ≠ 1 →
     isTracking (state w') = true
     ∧ watchId w' = watchId w
     ∧ watches w' = watches w
     ∧ statusLog w' = statusLog w ++ [(errorMessages code, error)]).
Proof.
  intros w Htracking w'.
  destruct (watch_reachable env storage events) as (Hw & Ht & Hg).
  fold w in Hw, Ht, Hg. subst w'.
  destruct (Z.eqb_spec code 1) as [-> | Hne].
  - split_and?; [| | done].
    + evaluate. rewrite Htracking. simpl.
      destruct (watchId w) as [h |] eqn:Hh; simpl.
      * rewrite (Hg (mk_is_Some _ _ eq_refl)). simpl.
        cases; eexists; by rewrite <- ?app_assoc.
      * cases; eexists; by rewrite <- ?app_assoc.
    + intros _. evaluate. rewrite Htracking. simpl.
      destruct (watchId w) as [h |] eqn:Hh; simpl.
      * rewrite (Hg (mk_is_Some _ _ eq_refl)). simpl.
        assert (Hnone : filter (λ h' : nat, h' ≠ h) (watches w) = []).
        { rewrite Hw. by rewrite filter_cons, decide_False by (by intros ?). }
        cases; by rewrite ?Hnone.
      * cases; by rewrite ?Hw.
  - assert (Hrun : exec (onLocationError env code) w =
                   set_statusLog (statusLog w ++ [(errorMessages code, error)])
                     (exec (debug env (errorMessages code) error) w)).
    { evaluate. apply Z.eqb_neq in Hne. by rewrite Hne. }
    rewrite Hrun. split_and?; [by eexists | done |]. by intros _.
Qed.

Lemma only_permission_denied_stops_witness :
  let events :=
    [SubmitUserId "rider_7";
     Resume 1 (FetchSettled (Responded {| status := 404; statusText := "Not Found" |}));
     StartTracking] in
  let w := run Browser.env (construct Browser.env ∅) events in
  isTracking (state w) = true
  ∧ isTracking (state (exec (onLocationError Browser.env 3) w)) = true
  ∧ watchId (exec (onLocationError Browser.env 3) w) = watchId w
  ∧ isTracking (state (exec (onLocationError Browser.env 1) w)) = false
  ∧ watches (exec (onLocationError Browser.env 1) w) = [].
Proof.
  intros events w.
  assert (Htracking : isTracking (state w) = true) by (vm_compute; reflexivity).
  pose proof (only_permission_denied_stops Browser.env ∅ events 3 Htracking) as H3.
  pose proof (only_permission_denied_stops Browser.env ∅ events 1 Htracking) as H1.
  cbv zeta in H1, H3.
  destruct H3 as (_ & _ & Htimeout). destruct H1 as (_ & Hdenied & _).
  destruct Htimeout as (Hstill & Hsame & _); [discriminate |].
  destruct (Hdenied eq_refl) as (Hstopped & _ & Hcleared).
  split; [exact Htracking |]. split; [exact Hstill |]. split; [exact Hsame |].
  split; [exact Hstopped | exact Hcleared].
Defined.

(** * Further properties *)

(** ** What every reachable world satisfies *)

Lemma requests_ok_fetch r :
  request_ok r → preserves requests_ok (update (fun w => set_requests (requests w ++ [r]) w)).
Proof.
  intros Hr w H. unfold requests_ok in *. simpl.
  apply Forall_app. split; [done |]. by apply Forall_singleton.
Qed.

Lemma request_ok_push user d :
  request_ok {| req_method := POST; req_url := backendUrl;
                req_headers := [("Content-Type", "application/json");
                                ("Accept", "application/json")];
                req_body := Some (payload_of user d) |}.
Proof. left. split_and?; try done. by eexists. Qed.

Lemma request_ok_history u :
  invalid_format u = false →
  request_ok {| req_method := GET; req_url := historyUrl u;
                req_headers := [("Accept", "application/json")];
                req_body := None |}.
Proof. intros Hu. right. split_and?; try done. by exists u. Qed.

Ltac solve_requests :=
  preserve;
  try (apply requests_ok_fetch;
       first [apply request_ok_push | by apply request_ok_history]).

Lemma requests_ok_step env w ev : requests_ok w → requests_ok (step env w ev).
Proof.
  apply preserves_step; try done; try (intros; by solve_requests).
  intros t s k Hk. destruct t, s; simpl in Hk; simplify_eq; solve_requests.
Qed.

Lemma requests_ok_reachable env storage events :
  requests_ok (run env (construct env storage) events).
Proof.
  apply (preserves_run requests_ok).
  - intros w ev. apply requests_ok_step.
  - assert (Hinit : preserves requests_ok (init env)) by solve_requests.
    apply Hinit. by apply Forall_nil.
Qed.

Lemma tasks_ok_suspend t :
  task_ok t → preserves tasks_ok (update (fun w => set_pending (pending w ++ [t]) w)).
Proof.
  intros Ht w H. unfold tasks_ok in *. simpl.
  apply Forall_app. split; [done |]. by apply Forall_singleton.
Qed.

Ltac solve_tasks := preserve; try (apply tasks_ok_suspend; by simpl).

Lemma tasks_ok_resume env t s k :
  task_ok t → resume env t s = Some k → preserves tasks_ok k.
Proof.
  intros Ht Hk. destruct t, s; simpl in Hk, Ht; simplify_eq; solve_tasks.
Qed.

Lemma tasks_ok_step env w ev : tasks_ok w → tasks_ok (step env w ev).
Proof.
  intros H. destruct ev; simpl; unfold exec; try done.
  - revert w H. change (preserves tasks_ok (startTracking env)). solve_tasks.
  - revert w H. change (preserves tasks_ok (stopTracking env)). solve_tasks.
  - revert w H. change (preserves tasks_ok (submitUserId env value)). solve_tasks.
  - revert w H. change (preserves tasks_ok (getLocation env)). solve_tasks.
  - revert w H. change (preserves tasks_ok (onLocationSuccess env coords)). solve_tasks.
  - revert w H. change (preserves tasks_ok (onLocationError env code)). solve_tasks.
  - revert w H. change (preserves tasks_ok (updatePermissionStatus env st)). solve_tasks.
  - destruct (pending w !! i) as [t |] eqn:Hi; [| done].
    destruct (resume env t s) as [k |] eqn:Hk; [| done].
    assert (Ht : task_ok t).
    { unfold tasks_ok in H. rewrite Forall_lookup in H. by apply (H i). }
    apply (tasks_ok_resume env t s k Ht Hk).
    unfold tasks_ok in *. simpl. by apply Forall_delete.
Qed.

Lemma tasks_ok_reachable env storage events :
  tasks_ok (run env (construct env storage) events).
Proof.
  apply (preserves_run tasks_ok).
  - intros w ev. apply tasks_ok_step.
  - assert (Hinit : preserves tasks_ok (init env)) by solve_tasks.
    apply Hinit. by apply Forall_nil.
Qed.

Ltac identity_done :=
  split_and?; intros; simplify_eq; try done; try congruence;
  try (by rewrite lookup_insert_eq); try (by eauto).

Lemma identity_available env u :
  invalid_format u = false →
  preserves identity_consistent (submitUserId_available env u).
Proof.
  intros Hu w (Hset & Htracking & Hinit & Hid).
  unfold identity_consistent. evaluate. cases; identity_done.
Qed.

Lemma identity_catch env u e :
  invalid_format u = false →
  preserves identity_consistent (submitUserId_catch env u e).
Proof.
  intros Hu w (Hset & Htracking & Hinit & Hid).
  unfold identity_consistent. evaluate. cases; identity_done.
Qed.

Lemma identity_startTracking env :
  preserves identity_consistent (startTracking env).
Proof.
  intros w (Hset & Htracking & Hinit & Hid).
  unfold identity_consistent. evaluate.
  destruct (userIdSet (state w)) eqn:Hflag; simpl; [| identity_done].
  cases; identity_done;
    try (rewrite lookup_insert_ne by done); by eapply Hid.
Qed.

Lemma identity_stopTracking env :
  preserves identity_consistent (stopTracking env).
Proof.
  intros w (Hset & Htracking & Hinit & Hid).
  unfold identity_consistent. evaluate. cases; identity_done.
  all: by eapply Hid.
Qed.

#[local] Hint Resolve identity_startTracking identity_stopTracking : preserved.

Lemma identity_resume env t s k :
  task_ok t → resume env t s = Some k → preserves identity_consistent k.
Proof.
  intros Ht Hk. destruct t, s; simpl in Hk, Ht; simplify_eq; try by preserve.
  - apply preserves_try_catch; [| intros e; by apply identity_catch].
    destruct o as [reason | r]; [by preserve |].
    destruct (ok r); [by preserve | by apply identity_available].
  - apply preserves_try_catch; [| intros e; by apply identity_catch].
    destruct o as [reason | data]; [by preserve |].
    destruct data as [| | | | [| record others] |];
      first [by apply identity_available | by preserve].
Qed.

Lemma identity_submitUserId env value :
  preserves identity_consistent (submitUserId env value).
Proof.
  unfold submitUserId.
  destruct (String.eqb (input_value env value) ""); [by preserve |].
  destruct (invalid_format (input_value env value)) eqn:Hformat; [by preserve |].
  apply preserves_bind; [by preserve | intros _].
  apply preserves_bind; [by preserve | intros _].
  apply preserves_try_catch; [by preserve | intros e; by apply identity_catch].
Qed.

Lemma identity_step env w ev :
  tasks_ok w → identity_consistent w → identity_consistent (step env w ev).
Proof.
  intros Htasks H. destruct ev; simpl; unfold exec; try done.
  - by apply identity_startTracking.
  - by apply identity_stopTracking.
  - by apply identity_submitUserId.
  - assert (Hp : preserves identity_consistent (getLocation env)) by preserve.
    by apply Hp.
  - assert (Hp : preserves identity_consistent (onLocationSuccess env coords)) by preserve.
    by apply Hp.
  - assert (Hp : preserves identity_consistent (onLocationError env code)) by preserve.
    by apply Hp.
  - assert (Hp : preserves identity_consistent (updatePermissionStatus env st)) by preserve.
    by apply Hp.
  - destruct (pending w !! i) as [t |] eqn:Hi; [| done].
    destruct (resume env t s) as [k |] eqn:Hk; [| done].
    assert (Ht : task_ok t).
    { unfold tasks_ok in Htasks. rewrite Forall_lookup in Htasks.
      by apply (Htasks i). }
    by apply (identity_resume env t s k Ht Hk).
Qed.

Lemma identity_reachable env storage events :
  identity_consistent (run env (construct env storage) events).
Proof.
  cut (tasks_ok (run env (construct env storage) events)
       ∧ identity_consistent (run env (construct env storage) events));
    [by intros [_ ?] |].
  apply (preserves_run (fun w => tasks_ok w ∧ identity_consistent w)).
  - intros w ev [Htasks H]. split; [by apply tasks_ok_step | by apply identity_step].
  - split; [apply (tasks_ok_reachable env storage []) |].
    assert (Hinit : preserves identity_consistent (init env)) by preserve.
    apply Hinit. unfold identity_consistent. simpl.
    by split_and?.
Qed.

Lemma invalid_format_empty : invalid_format "" = true.
Proof. done. Qed.

(** X1.  Every call of [fetch] the page ever makes is of one of two
    shapes: a POST to [backendUrl] whose body has exactly the five payload
    fields, or a GET of the history URL of a candidate that passed the
    format check of line 209.  No other URL is requested and no malformed
    candidate reaches the network. *)
Theorem every_request_well_formed env storage events :
  Forall
    (fun r =>
       (req_method r = POST ∧ req_url r = backendUrl
        ∧ ∃ body, req_body r = Some body ∧ map fst body = payload_fields)
       ∨ (req_method r = GET ∧ req_body r = None
          ∧ ∃ u, invalid_format u = false ∧ req_url r = historyUrl u))
    (requests (run env (construct env storage) events)).
Proof. apply requests_ok_reachable. Qed.

(** X2.  In every world the page can reach, the identity and the flags
    agree: [userIdSet] is true exactly when [userId] is not null; tracking
    and [isInitialized] are only ever true with an identity; and an
    identity, once held, passed the format check, sits in the slot
    [current_user_id], and is what [getUserId()] returns. *)
Theorem identity_and_flags_agree env storage events :
  let w := run env (construct env storage) events in
  (userIdSet (state w) = true ↔ is_Some (userId (state w)))
  ∧ (isTracking (state w) = true → userIdSet (state w) = true)
  ∧ (isInitialized (state w) = true → userIdSet (state w) = true)
  ∧ (∀ u, userId (state w) = Some u →
       invalid_format u = false
       ∧ localStorage w !! current_user_id = Some u
       ∧ fst (getUserId w) = Normal (Some u)).
Proof.
  intros w.
  destruct (identity_reachable env storage events) as (Hset & Htracking & Hinit & Hid).
  fold w in Hset, Htracking, Hinit, Hid.
  split_and?; try done.
  intros u Hu. destruct (Hid u Hu) as [Hformat Hslot].
  split_and?; try done.
  unfold getUserId, getItem, bind, read, ret. simpl. rewrite Hslot.
  destruct u; [by rewrite invalid_format_empty in Hformat | done].
Qed.

Lemma identity_and_flags_agree_witness :
  let w := run Browser.env (construct Browser.env ∅)
             [SubmitUserId "rider_7";
              Resume 1 (FetchSettled (Rejected "Failed to fetch"));
              StartTracking] in
  isTracking (state w) = true
  ∧ userIdSet (state w) = true
  ∧ fst (getUserId w) = Normal (Some "rider_7").
Proof.
  intros w.
  pose proof (identity_and_flags_agree Browser.env ∅
    [SubmitUserId "rider_7";
     Resume 1 (FetchSettled (Rejected "Failed to fetch"));
     StartTracking]) as H.
  cbv zeta in H. destruct H as (_ & Htracking & _ & Hid).
  assert (Hactive : isTracking (state w) = true) by (vm_compute; reflexivity).
  assert (Hu : userId (state w) = Some "rider_7") by (vm_compute; reflexivity).
  split; [exact Hactive |]. split; [exact (Htracking Hactive) |].
  exact (proj2 (proj2 (Hid "rider_7" Hu))).
Defined.

Lemma id_char_alphabet c : id_char c = bool_decide (c ∈ chars id_alphabet).
Proof. destruct c as [[] [] [] [] [] [] [] []]; vm_compute; reflexivity. Qed.

Lemma all_id_chars_spec s :
  all_id_chars s = true ↔ ∀ c, c ∈ chars s → id_char c = true.
Proof.
  induction s as [| c' rest IH]; simpl.
  - split; [intros _ c Hc; by apply elem_of_nil in Hc | done].
  - rewrite andb_true_iff, IH. split.
    + intros [Hc' Hrest] c Hc. apply elem_of_cons in Hc as [-> | Hc]; auto.
    + intros H. split; [apply H; by left |].
      intros c Hc. apply H. by right.
Qed.

(** X3.  The format check of line 209 accepts exactly the strings of 3 to
    50 characters that are all letters [a-z] or [A-Z], digits, [_] or [-]
    (the 64 characters listed in [id_alphabet]); every other string, the
    empty one included, is refused. *)
Theorem format_check_exact s :
  invalid_format s = false ↔
  (3 ≤ String.length s ≤ 50)%nat ∧ ∀ c, c ∈ chars s → c ∈ chars id_alphabet.
Proof.
  unfold invalid_format. rewrite !orb_false_iff, negb_false_iff.
  rewrite !Nat.ltb_ge.
  assert (Hchars : (∀ c, c ∈ chars s → id_char c = true) ↔
                   (∀ c, c ∈ chars s → c ∈ chars id_alphabet)).
  { split; intros H c Hc; specialize (H c Hc);
      rewrite id_char_alphabet, bool_decide_eq_true in *; done. }
  rewrite <- Hchars, <- all_id_chars_spec.
  split.
  - intros [[Htest Hlow] Hhigh]. split; [lia |].
    by destruct s.
  - intros [[Hlow Hhigh] Hall]. split; [split |]; try lia.
    destruct s; [simpl in Hlow; lia | done].
Qed.

(** ** The identity, further *)

(** X4.  When the two elements exist, [validateUserIdInput] disables the
    submit button exactly for the values the format check of
    [submitUserId] refuses, and shows the success class exactly for the
    others; a value with a character outside the alphabet gets the
    character message even when it is also too short.  For a value the
    button is enabled for, and that [trim] leaves as it is, [submitUserId]
    sends the history lookup. *)
Theorem validation_agrees_with_submit env (value : string) (d : ValidationDisplay) :
  validateUserIdInput_display env value = Some d →
  submit_disabled d = invalid_format value
  ∧ (message_class d = "validation-message success" ↔ invalid_format value = false)
  ∧ (value ≠ "" → test_format value = false →
     message_text d = "⚠️ Only letters, numbers, underscores, and hyphens allowed"
     ∧ message_class d = "validation-message error")
  ∧ (submit_disabled d = false → input_value env value = value →
     ∀ w, pending (exec (submitUserId env value) w) = pending w ++ [HistoryFetch value]).
Proof.
  unfold validateUserIdInput_display, invalid_format.
  destruct (negb (document env "validationMessage") || negb (document env "submitUserIdBtn"));
    [done |].
  destruct (String.eqb_spec value "") as [-> | Hne].
  { intros [= <-]. simpl. split_and?; try done. }
  destruct (test_format value) eqn:Htest; simpl.
  2: { intros [= <-]. simpl. split_and?; try done. }
  destruct (String.length value <? 3)%nat eqn:Hlow; simpl.
  { intros [= <-]. simpl. split_and?; try done. }
  destruct (50 <? String.length value)%nat eqn:Hhigh; simpl.
  { intros [= <-]. simpl. split_and?; try done. }
  intros [= <-]. simpl. split_and?; try done.
  intros _ Hvalue w. evaluate. unfold input_value in Hvalue. rewrite Hvalue.
  destruct (String.eqb_spec value "") as [-> | _]; [done |].
  unfold invalid_format. by rewrite Htest, Hlow, Hhigh.
Qed.

Lemma validation_agrees_with_submit_witness :
  validateUserIdInput_display Browser.env "a!" =
    Some {| message_text := "⚠️ Only letters, numbers, underscores, and hyphens allowed";
            message_class := "validation-message error";
            submit_disabled := true |}
  ∧ invalid_format "a!" = true.
Proof.
  assert (H : validateUserIdInput_display Browser.env "a!" =
    Some {| message_text := "⚠️ Only letters, numbers, underscores, and hyphens allowed";
            message_class := "validation-message error";
            submit_disabled := true |}) by reflexivity.
  split; [exact H |].
  symmetry. exact (proj1 (validation_agrees_with_submit Browser.env "a!" _ H)).
Defined.

(** X5.  When the history lookup answers 2xx with a body that is not a
    non-empty array (an empty array, null, an object ...), on a page that
    has the device-info elements, the candidate is accepted: the status
    becomes the success line [Ready to track], the identity is set and
    stored, [isInitialized] is set, and the session counter is replaced
    by [parseInt] of the stored [session_count_{candidate}], or of [0]
    when that key is absent or empty.  Nothing is requested or parked, and
    the tracking flag is not touched. *)
Theorem online_acceptance env (u : string) (data : Json) (w : World) :
  has_records data = false →
  device_info_elements env →
  let w' := exec (submitUserId_body env u (BodyJson data)) w in
  statusLog w' = statusLog w ++ [(Text "✓ Ready to track", success)]
  ∧ identity_is u w'
  ∧ isInitialized (state w') = true
  ∧ sessionCount (state w') =
      parseInt env (or_else (localStorage w !! session_count_ u) "0")
  ∧ (localStorage w !! session_count_ u = None →
     sessionCount (state w') = parseInt env "0")
  ∧ localStorage w' = <[current_user_id := u]> (localStorage w)
  ∧ isTracking (state w') = isTracking (state w)
  ∧ requests w' = requests w
  ∧ pending w' = pending w.
Proof.
  intros Hdata (Hd1 & Hd2 & Hd3) w'. subst w'. unfold identity_is.
  destruct data as [| | | | [| record others] |]; try done;
    evaluate; rewrite Hd1, Hd2, Hd3; simpl;
    (split_and?; try done; try (by rewrite lookup_insert_eq);
     by intros ->).
Qed.

Lemma online_acceptance_witness :
  let w := construct Browser.env {[ session_count_ "rider_7" := "4" ]} in
  sessionCount (state
    (exec (submitUserId_body Browser.env "rider_7" (BodyJson (JArray []))) w)) = Int 4.
Proof.
  intros w.
  assert (Hdoc : device_info_elements Browser.env) by (by repeat split).
  pose proof (online_acceptance Browser.env "rider_7" (JArray []) w eq_refl Hdoc) as H.
  cbv zeta in H. destruct H as (_ & _ & _ & Hcount & _).
  rewrite Hcount. vm_compute. reflexivity.
Defined.

(** X6.  When the history lookup answers 2xx with a non-empty array, the
    submit is refused with an error status that names the candidate and
    the number of records; the identity, the flags, the session counter,
    the stored items, the requests and the parked tasks all stay as they
    were. *)
Theorem taken_identity_refused env (u : string) (record : Json)
    (others : list Json) (w : World) :
  let w' := exec (submitUserId_body env u (BodyJson (JArray (record :: others)))) w in
  statusLog w' = statusLog w ++ [(AlreadyExists u (S (length others)), error)]
  ∧ userId (state w') = userId (state w)
  ∧ userIdSet (state w') = userIdSet (state w)
  ∧ isInitialized (state w') = isInitialized (state w)
  ∧ sessionCount (state w') = sessionCount (state w)
  ∧ isTracking (state w') = isTracking (state w)
  ∧ localStorage w' = localStorage w
  ∧ requests w' = requests w
  ∧ pending w' = pending w.
Proof. intros w'. subst w'. by evaluate. Qed.

(** X7.  The offline path never touches the session counter: however the
    promise of the history lookup is rejected, and whatever the stored
    items hold, the counter after the submit is the counter before it
    (the stored [session_count_{candidate}] is read on the online path
    only). *)
Theorem offline_keeps_session_counter env (u reason : string) (w : World) :
  sessionCount (state (exec (submitUserId_response env u (Rejected reason)) w)) =
  sessionCount (state w).
Proof. evaluate. by cases. Qed.

(** X8.  A stored [tracking_data_{candidate}] that is not JSON, or that is
    the JSON [null], breaks the offline check: when the history lookup is
    unreachable, [submitUserId] ends with an exception thrown inside its
    [catch] block (a SyntaxError from [JSON.parse], a TypeError from
    [.length]); no status line is written, no validation error is shown,
    and the identity, the flags and the stored items stay as they were. *)
Theorem corrupt_history_breaks_offline_check env (u reason stored : string) (w : World) :
  localStorage w !! tracking_data_ u = Some stored →
  stored ≠ "" →
  JSON_parse env stored = None ∨ JSON_parse env stored = Some JNull →
  let result := submitUserId_response env u (Rejected reason) w in
  fst result =
    Throw (match JSON_parse env stored with
           | Some _ => TypeError_property "length"
           | None => SyntaxError
           end)
  ∧ statusLog (snd result) = statusLog w
  ∧ userId (state (snd result)) = userId (state w)
  ∧ userIdSet (state (snd result)) = userIdSet (state w)
  ∧ isInitialized (state (snd result)) = isInitialized (state w)
  ∧ localStorage (snd result) = localStorage w.
Proof.
  intros Hstored Hne Hparse result. subst result. evaluate.
  rewrite Hstored. simpl.
  destruct stored as [| c rest]; [done |]. simpl.
  by destruct Hparse as [-> | ->].
Qed.

Lemma corrupt_history_breaks_offline_check_witness :
  let w := construct Browser.env {[ tracking_data_ "abc" := "oops" ]} in
  fst (submitUserId_response Browser.env "abc" (Rejected "Failed to fetch") w) =
    Throw SyntaxError.
Proof.
  intros w.
  assert (Hstored : localStorage w !! tracking_data_ "abc" = Some "oops")
    by (vm_compute; reflexivity).
  assert (Hne : "oops" ≠ "") by discriminate.
  assert (Hparse : JSON_parse Browser.env "oops" = None
                   ∨ JSON_parse Browser.env "oops" = Some JNull)
    by (left; reflexivity).
  exact (proj1 (corrupt_history_breaks_offline_check Browser.env "abc"
                  "Failed to fetch" "oops" w Hstored Hne Hparse)).
Defined.

Lemma pretty_N_go_nonempty (x : N) : ∀ s, s ≠ "" → pretty_N_go x s ≠ "".
Proof.
  induction (N.lt_wf_0 x) as [x _ IH]; intros s Hs.
  assert (x = 0 ∨ 0 < x)%N as [-> | Hpos] by lia.
  - by rewrite pretty_N_go_0.
  - rewrite pretty_N_go_step by done. apply IH; [by apply N.div_lt | done].
Qed.

Lemma pretty_Z_nonempty (z : Z) : pretty z ≠ "".
Proof.
  unfold pretty, pretty_Z.
  destruct z as [| p | p]; try done.
  unfold pretty, pretty_positive, pretty, pretty_N. simpl.
  rewrite pretty_N_go_step by lia. by apply pretty_N_go_nonempty.
Qed.

Lemma format_nonempty (d : Decimal) : format d ≠ "".
Proof.
  unfold format. pose proof (pretty_Z_nonempty (digits_ d)) as Hne.
  destruct (pretty (digits_ d)) as [| first [| second rest]]; [done | |];
    by destruct (exponent_ d <=? 21).
Qed.

Lemma Number_toString_nonempty n : Number_toString n ≠ "".
Proof.
  destruct n as [| [|] | z]; try done. unfold Number_toString.
  destruct (Z.abs z <=? 2 ^ 53); [apply pretty_Z_nonempty |].
  cbv zeta. destruct (z <? 0); [done |].
  destruct (shortest _ _ _ _); [apply format_nonempty | apply pretty_Z_nonempty].
Qed.

(** X9.  The session counter survives a new identification.  With an
    identity and not tracking, on a page that has the elements the two
    methods write to, [startTracking()] stores the text of the incremented
    counter, and a later online acceptance of the same identity reads it
    back: if [parseInt] returns the number whose text it is given, the
    counter after the acceptance is the one [startTracking()] left, which
    is [n + 1] for a counter [n] whenever [n + 1] is at most [2 ^ 53] in
    magnitude. *)
Theorem session_counter_round_trip env (u : string) (n : Z) (data : Json) (w : World) :
  userIdSet (state w) = true → userId (state w) = Some u →
  isTracking (state w) = false → sessionCount (state w) = Int n →
  document env "startBtn" = true → document env "stopBtn" = true →
  device_info_elements env →
  parseInt env (Number_toString (increment (Int n))) = increment (Int n) →
  has_records data = false →
  let w1 := exec (startTracking env) w in
  let w2 := exec (submitUserId_body env u (BodyJson data)) w1 in
  localStorage w1 !! session_count_ u = Some (Number_toString (increment (Int n)))
  ∧ sessionCount (state w2) = increment (Int n)
  ∧ (Z.abs (n + 1) ≤ 2 ^ 53 →
     localStorage w1 !! session_count_ u = Some (Number_toString (Int (n + 1)))
     ∧ sessionCount (state w2) = Int (n + 1)).
Proof.
  intros Hset Hid Htracking Hcount Hstart Hstop (Hd1 & Hd2 & Hd3) Hparse Hdata w1 w2.
  assert (Hstored : localStorage w1 !! session_count_ u =
                    Some (Number_toString (increment (Int n)))).
  { subst w1. evaluate. rewrite Hset; simpl. rewrite Htracking; simpl.
    rewrite Hstart; simpl. rewrite Hstop; simpl.
    destruct (geolocation env); simpl; rewrite Hid, Hcount; simpl;
      rewrite Hd3; simpl; by rewrite lookup_insert_eq. }
  assert (Hread : sessionCount (state w2) =
                  parseInt env (or_else (localStorage w1 !! session_count_ u) "0")).
  { subst w2. destruct data as [| | | | [| record others] |]; try done;
      evaluate; rewrite Hd1, Hd2, Hd3; done. }
  assert (Hback : sessionCount (state w2) = increment (Int n)).
  { rewrite Hread, Hstored.
    pose proof (Number_toString_nonempty (increment (Int n))) as Hne.
    unfold or_else.
    destruct (Number_toString (increment (Int n))); [done | exact Hparse]. }
  split; [exact Hstored |]. split; [exact Hback |].
  intros Hsafe. by rewrite <- (increment_exact n Hsafe).
Qed.

Lemma session_counter_round_trip_witness :
  let w := run Browser.env (construct Browser.env ∅)
             [SubmitUserId "rider_7";
              Resume 1 (FetchSettled (Responded {| status := 404; statusText := "Not Found" |}))] in
  let w1 := exec (startTracking Browser.env) w in
  let w2 := exec (submitUserId_body Browser.env "rider_7" (BodyJson (JArray []))) w1 in
  sessionCount (state w) = Int 0
  ∧ localStorage w1 !! session_count_ "rider_7" = Some "1"
  ∧ sessionCount (state w2) = Int 1.
Proof.
  intros w w1 w2.
  assert (Hcount : sessionCount (state w) = Int 0) by (vm_compute; reflexivity).
  assert (Hdoc : device_info_elements Browser.env) by (by repeat split).
  pose proof (session_counter_round_trip Browser.env "rider_7" 0 (JArray []) w) as H.
  cbv zeta in H.
  destruct H as (Hstored & Hback & _); try (vm_compute; reflexivity); [exact Hdoc |].
  split; [exact Hcount |]. split; [exact Hstored | exact Hback].
Defined.

(** ** Construction and tracking, further *)

(** X10.  A freshly constructed page never has an identity, whatever its
    storage holds (a stored [current_user_id] is not read back): identity
    and flags are unset, nothing is requested and the stored items are
    untouched.  On a page with the device-info elements: without the
    geolocation API [init] writes the error status and parks nothing;
    with it and the permissions API it parks the permission query and
    writes no status; with it and without the permissions API it parks
    nothing and writes no status. *)
Theorem construction_starts_without_identity env storage :
  let w := construct env storage in
  userId (state w) = None
  ∧ userIdSet (state w) = false
  ∧ isInitialized (state w) = false
  ∧ isTracking (state w) = false
  ∧ watchId w = None ∧ watches w = []
  ∧ requests w = []
  ∧ localStorage w = storage
  ∧ (device_info_elements env →
     if geolocation env then
       statusLog w = []
       ∧ pending w = if permissions env then [PermissionQuery] else []
     else
       statusLog w = [(Text "❌ Geolocation not supported", error)]
       ∧ pending w = []).
Proof.
  intros w. subst w. unfold construct. evaluate.
  split_and?; try (by cases).
  intros (Hd1 & Hd2 & Hd3). rewrite Hd1, Hd2, Hd3. simpl.
  destruct (geolocation env); simpl; [| done].
  by destruct (permissions env).
Qed.

Lemma construction_starts_without_identity_witness :
  let w := construct Browser.env {[ current_user_id := "rider_7" ]} in
  localStorage w !! current_user_id = Some "rider_7"
  ∧ userId (state w) = None
  ∧ pending w = [PermissionQuery].
Proof.
  intros w.
  pose proof (construction_starts_without_identity Browser.env
                {[ current_user_id := "rider_7" ]}) as H.
  cbv zeta in H. destruct H as (Hid & _ & _ & _ & _ & _ & _ & Hstore & Hinit).
  assert (Hdoc : device_info_elements Browser.env) by (by repeat split).
  split; [fold w in Hstore; rewrite Hstore; reflexivity |].
  split; [exact Hid | exact (proj2 (Hinit Hdoc))].
Defined.

(** X11.  Without the geolocation API, [startTracking()] with an identity
    and not tracking still marks the session as tracking and applies [++]
    to the counter (adding one to a counter [n] whenever [n + 1] is at most
    [2 ^ 53] in magnitude), but registers no subscription: [watchId] stays
    as it was and the provider holds what it held; on a page that has the
    elements [startBtn] and [stopBtn], the status line even ends with
    [Tracking active]. *)
Theorem tracking_without_provider env (w : World) :
  geolocation env = false →
  userIdSet (state w) = true → isTracking (state w) = false →
  let w' := exec (startTracking env) w in
  isTracking (state w') = true
  ∧ sessionCount (state w') = increment (sessionCount (state w))
  ∧ (∀ n, sessionCount (state w) = Int n → Z.abs (n + 1) ≤ 2 ^ 53 →
          sessionCount (state w') = Int (n + 1))
  ∧ watchId w' = watchId w
  ∧ watches w' = watches w
  ∧ (document env "startBtn" = true → document env "stopBtn" = true →
     statusLog w' = statusLog w ++ [(Text "🔄 Starting...", info);
                                    (Text "🟢 Tracking active", success)]).
Proof.
  intros Hgeo Hset Htracking w'. subst w'. evaluate.
  rewrite Hset; simpl. rewrite Htracking; simpl. rewrite Hgeo.
  split_and?; try (by cases).
  - intros n Hn Hsafe. rewrite <- (increment_exact n Hsafe), <- Hn. by cases.
  - intros Hstart Hstop. rewrite Hstart; simpl. rewrite Hstop; simpl.
    cases; by rewrite <- app_assoc.
Qed.

Lemma tracking_without_provider_witness :
  let w := run browser_without_geolocation (construct browser_without_geolocation ∅)
             [SubmitUserId "rider_7";
              Resume 0 (FetchSettled (Rejected "Failed to fetch"))] in
  let w' := exec (startTracking browser_without_geolocation) w in
  isTracking (state w') = true ∧ sessionCount (state w') = Int 1
  ∧ watchId w' = None ∧ watches w' = [].
Proof.
  intros w w'.
  pose proof (tracking_without_provider browser_without_geolocation w) as H.
  cbv zeta in H.
  destruct H as (Hactive & _ & Hcount & Hid & Hwatches & _); try (vm_compute; reflexivity).
  assert (Hsafe : Z.abs (0 + 1) ≤ 2 ^ 53) by (vm_compute; discriminate).
  split; [exact Hactive |].
  split; [apply (Hcount 0); [vm_compute; reflexivity | exact Hsafe] |].
  subst w'. rewrite Hid, Hwatches.
  split; vm_compute; reflexivity.
Defined.

(** X12.  A page that lacks one of the six elements
    [updateLocationDisplay] writes to loses every sample:
    [onLocationSuccess] records the sample as [lastLocation], then throws
    at the missing element before [sendToBackend] is called, so nothing is
    requested, nothing is parked and nothing is appended to
    [state.locations]. *)
Theorem missing_display_element_drops_sample env (id : string) (coords : Coordinates)
    (w : World) :
  id ∈ location_display_ids → document env id = false →
  let result := onLocationSuccess env coords w in
  (∃ missing, missing ∈ location_display_ids
              ∧ fst result = Throw (TypeError_element missing))
  ∧ lastLocation (state (snd result)) =
      Some (sample_of env coords (clock env (ticks w)))
  ∧ requests (snd result) = requests w
  ∧ pending (snd result) = pending w
  ∧ locations (state (snd result)) = locations (state w).
Proof.
  intros Hid Hmissing result. subst result.
  unfold location_display_ids in *.
  assert (Hsome : document env "currentLat" = false ∨ document env "currentLon" = false
                  ∨ document env "currentAccuracy" = false
                  ∨ document env "accuracyStatus" = false
                  ∨ document env "currentTime" = false
                  ∨ document env "lastUpdateTime" = false).
  { repeat (apply elem_of_cons in Hid as [-> | Hid]; [tauto |]).
    by apply elem_of_nil in Hid. }
  clear Hid Hmissing. evaluate.
  cases; split_and?; try done;
    try (eexists; split; [| reflexivity]; by apply (bool_decide_unpack _)).
  all: destruct Hsome as [? | [? | [? | [? | [? | ?]]]]]; congruence.
Qed.

Lemma missing_display_element_drops_sample_witness :
  let coords := {| c_latitude := 375; c_longitude := 1270; c_accuracy := 123;
                   c_altitude := None; c_heading := None; c_speed := None |} in
  let result := onLocationSuccess browser_without_currentTime coords (fresh ∅) in
  fst result = Throw (TypeError_element "currentTime")
  ∧ requests (snd result) = [].
Proof.
  intros coords result.
  pose proof (missing_display_element_drops_sample browser_without_currentTime
                "currentTime" coords (fresh ∅)) as H.
  cbv zeta in H.
  destruct H as (_ & _ & Hrequests & _);
    [by apply (bool_decide_unpack _) | reflexivity |].
  split; [vm_compute; reflexivity | exact Hrequests].
Defined.

(** ** Delivery, further *)

(** X13.  The sample log is in the order in which the deliveries end, not
    the order in which the samples arrived: of two deliveries waiting at
    [response.json()], the one parked first for [d1] and the one parked
    later for [d2], if the later one settles first, [d2] is appended before
    [d1]. *)
Theorem log_is_in_settlement_order env (w : World) (i j : nat)
    (d1 d2 : LocationData) (o1 o2 : BodyOutcome) :
  pending w !! i = Some (PushBody d1) →
  pending w !! j = Some (PushBody d2) →
  (i < j)%nat →
  let w' := run env w [Resume j (BodySettled o2); Resume i (BodySettled o1)] in
  locations (state w') = locations (state w) ++ [d2; d1].
Proof.
  intros Hi Hj Hlt w'. subst w'. simpl.
  rewrite Hj. simpl.
  set (w1 := exec (sendToBackend_body env d2 o2) _).
  assert (H1 : locations (state w1) = locations (state w) ++ [d2]
               ∧ pending w1 = delete j (pending w)).
  { subst w1. destruct o2 as [reason | data]; evaluate; [done |].
    by destruct data. }
  destruct H1 as [Hloc1 Hpending1].
  rewrite Hpending1, list_lookup_delete_lt by done. rewrite Hi. simpl.
  set (w2 := exec (sendToBackend_body env d1 o1) _).
  assert (H2 : locations (state w2) = locations (state w1) ++ [d1]).
  { subst w2. destruct o1 as [reason | data]; evaluate; [done |].
    by destruct data. }
  rewrite H2, Hloc1. by rewrite <- app_assoc.
Qed.

Lemma log_is_in_settlement_order_witness :
  let first := {| c_latitude := 1; c_longitude := 1; c_accuracy := 5;
                  c_altitude := None; c_heading := None; c_speed := None |} in
  let second := {| c_latitude := 2; c_longitude := 2; c_accuracy := 5;
                   c_altitude := None; c_heading := None; c_speed := None |} in
  let accepted := FetchSettled (Responded {| status := 200; statusText := "OK" |}) in
  let w := run Browser.env (construct Browser.env ∅)
             [LocationSuccess first; LocationSuccess second;
              Resume 1 accepted; Resume 1 accepted] in
  let w' := run Browser.env w
              [Resume 2 (BodySettled (BodyJson JNull));
               Resume 1 (BodySettled (BodyJson JNull))] in
  latitude <$> locations (state w') = [2; 1].
Proof.
  intros first second accepted w w'.
  pose proof (log_is_in_settlement_order Browser.env w 1 2
                (sample_of Browser.env first 1) (sample_of Browser.env second 4)
                (BodyJson JNull) (BodyJson JNull)) as H.
  cbv zeta in H. subst w'. rewrite H; vm_compute; reflexivity.
Defined.

(** ** Tracking, further *)

Lemma session_once env (w : World) (z : Z) :
  watch_invariant env w →
  userIdSet (state w) = true → isTracking (state w) = false →
  sessionCount (state w) = Int z →
  let w' := run env w [StartTracking; StopTracking] in
  watch_invariant env w'
  ∧ userIdSet (state w') = true ∧ isTracking (state w') = false
  ∧ sessionCount (state w') = increment (Int z).
Proof.
  intros Hinv Hset Htracking Hcount w'. subst w'. simpl.
  set (w1 := exec (startTracking env) w).
  assert (Hinv1 : watch_invariant env w1) by (by apply watch_startTracking).
  assert (H1 : userIdSet (state w1) = true ∧ isTracking (state w1) = true
               ∧ sessionCount (state w1) = increment (Int z)).
  { subst w1. evaluate. rewrite Hset; simpl. rewrite Htracking; simpl.
    cases; by rewrite Hcount. }
  destruct H1 as (Hset1 & Htracking1 & Hcount1).
  split; [by apply watch_stopTracking |].
  destruct Hinv1 as (Hw & _ & Hg).
  evaluate. rewrite Htracking1. simpl.
  destruct (watchId w1) as [h |] eqn:Hh; simpl.
  - rewrite (Hg (mk_is_Some _ _ eq_refl)). simpl. by cases.
  - by cases.
Qed.

(** X14.  Stopping never undoes the count: from a world where the
    provider's subscriptions are the tracker's handle, with an identity,
    not tracking and a counter of [z], [n] rounds of [startTracking()]
    then [stopTracking()] end not tracking, with no subscription and no
    handle left, whichever elements the page has; and with a counter of
    [z + n], as long as the counter stays within the integers that [++]
    counts exactly: [z] at least [- 2 ^ 53] and [z + n] at most [2 ^ 53]. *)
Theorem sessions_are_counted env (n : nat) : ∀ (w : World) (z : Z),
  watch_invariant env w →
  userIdSet (state w) = true → isTracking (state w) = false →
  sessionCount (state w) = Int z →
  - 2 ^ 53 ≤ z → z + Z.of_nat n ≤ 2 ^ 53 →
  let w' := run env w (sessions n) in
  sessionCount (state w') = Int (z + Z.of_nat n)
  ∧ isTracking (state w') = false
  ∧ watchId w' = None
  ∧ watches w' = [].
Proof.
  induction n as [| n IH]; intros w z Hinv Hset Htracking Hcount Hlow Hhigh w'; subst w'.
  - simpl. rewrite Z.add_0_r. split_and?; try done.
    + by apply Hinv.
    + destruct Hinv as (Hw & Ht & _). by rewrite Hw, (Ht Htracking).
  - change (run env w (sessions (S n))) with
      (run env (run env w [StartTracking; StopTracking]) (sessions n)).
    destruct (session_once env w z Hinv Hset Htracking Hcount)
      as (Hinv' & Hset' & Htracking' & Hcount').
    rewrite increment_exact in Hcount' by lia.
    destruct (IH _ _ Hinv' Hset' Htracking' Hcount') as (Hn & Hrest); [lia | lia |].
    split; [| exact Hrest]. rewrite Hn. f_equal. lia.
Qed.

Lemma sessions_are_counted_witness :
  let w := run Browser.env (construct Browser.env ∅)
             [SubmitUserId "rider_7";
              Resume 1 (FetchSettled (Rejected "Failed to fetch"))] in
  sessionCount (state w) = Int 0
  ∧ sessionCount (state (run Browser.env w (sessions 3))) = Int 3.
Proof.
  intros w.
  assert (Hcount : sessionCount (state w) = Int 0) by (vm_compute; reflexivity).
  assert (Hinv : watch_invariant Browser.env w) by apply watch_reachable.
  assert (Hlow : - 2 ^ 53 ≤ 0) by (vm_compute; discriminate).
  assert (Hhigh : 0 + Z.of_nat 3 ≤ 2 ^ 53) by (vm_compute; discriminate).
  pose proof (sessions_are_counted Browser.env 3 w 0 Hinv) as H.
  cbv zeta in H.
  destruct H as (H3 & _); try (vm_compute; reflexivity); [exact Hlow | exact Hhigh |].
  split; [exact Hcount | exact H3].
Defined.

(** X15.  However a delivery goes, it leaves the session alone: neither
    the call of [sendToBackend] nor the settlement of its [fetch] or of its
    [response.json()] (success, rejection, bad status, unreadable or null
    body) changes the tracking flag, the handle, the provider's
    subscriptions, the identity, the counter, the stored items or the
    status line; a failure is only written to the debug log. *)
Theorem delivery_leaves_session_alone env (d : LocationData) (w : World) :
  same_session w (exec (sendToBackend env d) w)
  ∧ (∀ o, same_session w (exec (sendToBackend_response env d o) w))
  ∧ (∀ o, same_session w (exec (sendToBackend_body env d o) w))
  ∧ ∀ e, debugLogs (state (exec (sendToBackend_catch env d e) w)) =
         push_bounded
           (push_bounded (debugLogs (state w))
              {| log_message := BackendError e; log_type := warning;
                 log_timestamp := toLocaleTimeString env (clock env (ticks w)) |})
           {| log_message := BackendUrl backendUrl; log_type := warning;
              log_timestamp := toLocaleTimeString env (clock env (S (ticks w))) |}.
Proof.
  unfold same_session. split; [| split; [| split]].
  - by evaluate.
  - intros [reason | r]; evaluate; [done |]. by destruct (ok r).
  - intros [reason | data]; evaluate; [done |]. by destruct data.
  - intros e. by evaluate.
Qed.

(** ** The device label *)

Lemma prefix_occurs (s1 : string) : ∀ s2,
  String.prefix s1 s2 = true ↔ ∃ after, s2 = s1 +:+ after.
Proof.
  induction s1 as [| a s1 IH]; intros s2; simpl.
  - split; [intros _; by exists s2 | by destruct s2].
  - destruct s2 as [| b s2]; simpl.
    + split; [done | by intros [after ?]].
    + destruct (ascii_dec a b) as [-> | Hne].
      * rewrite IH. split; intros [after H]; exists after.
        -- change (String b s2 = String b (s1 +:+ after)). by rewrite H.
        -- change (String b s2 = String b (s1 +:+ after)) in H. congruence.
      * split; [done | intros [after H]].
        change (String b s2 = String a (s1 +:+ after)) in H. congruence.
Qed.

Lemma includes_occurs (needle : string) : ∀ s,
  includes s needle = true ↔ occurs_in needle s.
Proof.
  unfold includes, occurs_in. induction s as [| b s IH].
  - simpl. destruct needle as [| a needle].
    + split; [intros _; by exists "", "" | done].
    + split; [done |]. intros (before & after & H).
      destruct before; discriminate.
  - change (String.index 0 needle (String b s)) with
      (if String.prefix needle (String b s) then Some 0%nat
       else match String.index 0 needle s with
            | Some n => Some (S n)
            | None => None
            end).
    destruct (String.prefix needle (String b s)) eqn:Hprefix.
    + split; [intros _ | done].
      apply prefix_occurs in Hprefix as [after H]. by exists "", after.
    + destruct (String.index 0 needle s) as [n |].
      * split; [intros _ | done].
        destruct (proj1 IH eq_refl) as (before & after & H).
        exists (String b before), after.
        change (String b s = String b (before +:+ needle +:+ after)).
        by rewrite H.
      * split; [done |]. intros (before & after & H).
        destruct before as [| c before].
        -- assert (String.prefix needle (String b s) = true)
             by (apply prefix_occurs; by exists after).
           congruence.
        -- change (String b s = String c (before +:+ needle +:+ after)) in H.
           injection H as _ H. apply IH. by exists before, after.
Qed.

(** X16.  [getDeviceInfo] labels a user agent by the first of [iPhone],
    [iPad], [Android], [Windows], [Mac] that occurs in it, in that order.
    Each of its six answers is given in exactly one case: [iPhone] when
    [iPhone] occurs, whatever else does; [iPad] when [iPad] occurs and
    [iPhone] does not; [Android] when [Android] occurs and neither of the
    two before it; [Windows] when [Windows] occurs and none of the three
    before it; [macOS] when [Mac] occurs and none of the four before it;
    [Unknown Device] when none of the five occurs. *)
Theorem device_label_by_first_match (ua : string) :
  (getDeviceInfo ua = "iPhone" ↔ occurs_in "iPhone" ua)
  ∧ (getDeviceInfo ua = "iPad" ↔
     occurs_in "iPad" ua ∧ ¬ occurs_in "iPhone" ua)
  ∧ (getDeviceInfo ua = "Android" ↔
     occurs_in "Android" ua
     ∧ ¬ occurs_in "iPhone" ua ∧ ¬ occurs_in "iPad" ua)
  ∧ (getDeviceInfo ua = "Windows" ↔
     occurs_in "Windows" ua
     ∧ ¬ occurs_in "iPhone" ua ∧ ¬ occurs_in "iPad" ua
     ∧ ¬ occurs_in "Android" ua)
  ∧ (getDeviceInfo ua = "macOS" ↔
     occurs_in "Mac" ua
     ∧ ¬ occurs_in "iPhone" ua ∧ ¬ occurs_in "iPad" ua
     ∧ ¬ occurs_in "Android" ua ∧ ¬ occurs_in "Windows" ua)
  ∧ (getDeviceInfo ua = "Unknown Device" ↔
     ¬ occurs_in "iPhone" ua ∧ ¬ occurs_in "iPad" ua
     ∧ ¬ occurs_in "Android" ua ∧ ¬ occurs_in "Windows" ua
     ∧ ¬ occurs_in "Mac" ua).
Proof.
  unfold getDeviceInfo. rewrite <- !includes_occurs.
  destruct (includes ua "iPhone"), (includes ua "iPad"),
    (includes ua "Android"), (includes ua "Windows"), (includes ua "Mac");
    split_and?; split; try done; intros H; try discriminate;
    destruct_and?; done.
Qed.

(** ** Histories *)

Lemma extends_refl w : extends w w.
Proof. by split_and?. Qed.

Lemma extends_locations w0 d :
  preserves (extends w0) (update (with_state (fun s =>
    set_locations (locations s ++ [d]) s))).
Proof.
  intros w (Hl & Hr & Hs). unfold extends. simpl.
  split_and?; try done. by apply prefix_app_r.
Qed.

Lemma extends_requests w0 r :
  preserves (extends w0) (update (fun w => set_requests (requests w ++ [r]) w)).
Proof.
  intros w (Hl & Hr & Hs). unfold extends. simpl.
  split_and?; try done. by apply prefix_app_r.
Qed.

Lemma extends_statusLog w0 line :
  preserves (extends w0) (update (fun w => set_statusLog (statusLog w ++ [line]) w)).
Proof.
  intros w (Hl & Hr & Hs). unfold extends. simpl.
  split_and?; try done. by apply prefix_app_r.
Qed.

Ltac solve_extends :=
  preserve;
  try first [apply extends_locations | apply extends_requests
            | apply extends_statusLog].

Lemma extends_step env w0 w ev : extends w0 w → extends w0 (step env w ev).
Proof.
  apply preserves_step; try done; try (intros; by solve_extends).
  intros t s k Hk. destruct t, s; simpl in Hk; simplify_eq; solve_extends.
Qed.

(** X17.  The sample log, the requests made and the status lines written
    are append-only: whatever events happen, from any world, each of the
    three afterwards starts with what it was before.  No event removes or
    rewrites a logged sample, and (unlike the debug log) nothing is ever
    evicted. *)
Theorem histories_are_append_only env (events : list Event) (w : World) :
  let w' := run env w events in
  locations (state w) `prefix_of` locations (state w')
  ∧ requests w `prefix_of` requests w'
  ∧ statusLog w `prefix_of` statusLog w'.
Proof.
  intros w'. subst w'.
  apply (preserves_run (extends w)).
  - intros w1 ev. apply extends_step.
  - apply extends_refl.
Qed.
